(** * outputartnet: the frame-update and transmission engine

    A shallow embedding of [src/module/outputartnet/outputartnet.py].  The
    module keeps a 512-channel DMX frame in process-wide globals, refreshes
    it once per control cycle from the value source, and broadcasts it over
    Art-Net when a channel changed or when the maintenance interval elapsed.

    Python floats (channel values, scale, offset, time stamps) are modelled
    as rationals [Q]; the channel levels stored in the frame are Python
    [int]s and are modelled as [Z]. *)

From Stdlib Require Import ZArith QArith Qround Qabs String Ascii DecimalString Lia.
From stdpp Require Import base list strings.

Local Open Scope Z_scope.

(** ** Exceptions, observable events, environment *)

(** The exception classes the module can meet.  The first three are the ones
    named by the handler of [__main__]. *)
Inductive exn : Type :=
  | SystemExit
  | KeyboardInterrupt
  | RuntimeError
  | OSError
  | ValueError
  | IndexError.

(** Calls to the external collaborators, in program order. *)
Inductive event : Type :=
  | EvBroadcast (frame : list Z) (addr : list Z) (* artnet.broadcastDMX(frame, addr) *)
  | EvChannel (chanindx : nat) (chanval : Z)     (* monitor.info("DMX channel%03d = %g" % ...) *)
  | EvSize (size : nat)                          (* monitor.info("universe size = %d" % ...) *)
  | EvSuccess (msg : string)                     (* monitor.success(msg) *)
  | EvPrint (msg : string)                       (* print(msg) *)
  | EvMonitorLoop                                (* monitor.loop() *)
  | EvSleep (seconds : Q)                        (* time.sleep(seconds) *)
  | EvClose.                                     (* artnet.close() *)

(** What the outside world does during one run: the configuration read at
    start, the wall clock, and whether each call of [broadcastDMX] returns
    or raises. *)
Record env : Type := mkEnv {
  universe : Z;                          (* patch.getint('artnet','universe') *)
  input_items : list (string * string);  (* patch.config.items('input') *)
  clock : nat -> Q;                      (* result of the n-th call of time.time() *)
  send_outcome : nat -> option exn       (* n-th broadcastDMX: None returns, Some e raises e *)
}.

(** What the outside world does during one control cycle.  [signal] is an
    exception delivered from outside (a termination signal) while the loop
    sleeps at the end of the cycle. *)
Record cycle : Type := mkCycle {
  input : string -> option Q;   (* patch.getfloat('input', key); None when not present *)
  scale : string -> option Q;   (* patch.getfloat('scale', key), before the default *)
  offset : string -> option Q;  (* patch.getfloat('offset', key), before the default *)
  delay : Q;                    (* patch.getfloat('general', 'delay') *)
  signal : option exn
}.

(** ** Program state: the module's globals and the history of the run *)

Record state : Type := mkState {
  address : list Z;
  dmxsize : nat;
  dmxframe : list Z;
  prevtime : Q;
  update : bool;
  trace : list event;  (* events so far, oldest first *)
  ticks : nat;         (* calls of time.time() so far *)
  sends : nat          (* calls of broadcastDMX so far *)
}.

(** The globals are unbound until [_start] (and [update] until the first
    cycle) assigns them; no code path reads one before its assignment. *)
Definition initial : state :=
  mkState [] 0%nat [] 0%Q false [] 0%nat 0%nat.

Definition set_address (a : list Z) (s : state) : state :=
  mkState a (dmxsize s) (dmxframe s) (prevtime s) (update s) (trace s) (ticks s) (sends s).
Definition set_dmxsize (n : nat) (s : state) : state :=
  mkState (address s) n (dmxframe s) (prevtime s) (update s) (trace s) (ticks s) (sends s).
Definition set_dmxframe (f : list Z) (s : state) : state :=
  mkState (address s) (dmxsize s) f (prevtime s) (update s) (trace s) (ticks s) (sends s).
Definition set_prevtime (t : Q) (s : state) : state :=
  mkState (address s) (dmxsize s) (dmxframe s) t (update s) (trace s) (ticks s) (sends s).
Definition set_update (b : bool) (s : state) : state :=
  mkState (address s) (dmxsize s) (dmxframe s) (prevtime s) b (trace s) (ticks s) (sends s).
Definition log (ev : event) (s : state) : state :=
  mkState (address s) (dmxsize s) (dmxframe s) (prevtime s) (update s)
          (trace s ++ [ev]) (ticks s) (sends s).
Definition tick (s : state) : state :=
  mkState (address s) (dmxsize s) (dmxframe s) (prevtime s) (update s)
          (trace s) (S (ticks s)) (sends s).
Definition count_send (s : state) : state :=
  mkState (address s) (dmxsize s) (dmxframe s) (prevtime s) (update s)
          (trace s) (ticks s) (S (sends s)).

(** ** A state-and-exception monad for the module's statements *)

Inductive res (A : Type) : Type :=
  | Ok (a : A) (s : state)
  | Raise (e : exn) (s : state).
Arguments Ok {A} a s.
Arguments Raise {A} e s.

Definition state_of {A} (r : res A) : state :=
  match r with Ok _ s => s | Raise _ s => s end.

Definition M (A : Type) : Type := state -> res A.

#[global] Instance M_ret : MRet M := fun A a s => Ok a s.
#[global] Instance M_bind : MBind M := fun A B k m s =>
  match m s with
  | Ok a s' => k a s'
  | Raise e s' => Raise e s'
  end.

Definition raise {A} (e : exn) : M A := fun s => Raise e s.
Definition get {A} (field : state -> A) : M A := fun s => Ok (field s) s.
Definition modify (f : state -> state) : M unit := fun s => Ok tt (f s).
Definition emit (ev : event) : M unit := modify (log ev).

(** [for x in xs: body] *)
Fixpoint for_each {A} (xs : list A) (body : A -> M unit) : M unit :=
  match xs with
  | [] => mret tt
  | x :: xs' => body x ;; for_each xs' body
  end.

(** ** External collaborators *)

(** [time.time()] *)
Definition time (E : env) : M Q := fun s => Ok (clock E (ticks s)) (tick s).

(** [time.sleep(seconds)]: the call is recorded; a negative length raises
    ValueError, any other returns. *)
Definition sleep (seconds : Q) : M unit :=
  emit (EvSleep seconds);;
  if Qlt_le_dec seconds 0 then raise ValueError else mret tt.

(** [artnet.broadcastDMX(frame, addr)]: the call is recorded, then it
    returns or raises as the environment decides. *)
Definition broadcastDMX (E : env) (frame addr : list Z) : M unit := fun s =>
  let s' := count_send (log (EvBroadcast frame addr) s) in
  match send_outcome E (sends s) with
  | None => Ok tt s'
  | Some e => Raise e s'
  end.

(** ** Value mapping *)

(** Modelled from the spec: [EEGsynth.rescale] lives in the shared library,
    outside the module; the spec gives the linear transform
    [v * scale + offset].  The rational stands for the float the library
    returns; the statements below speak of the level relative to this
    result and do not compute it in closed form. *)
Definition rescale (xval slope offset : Q) : Q := (slope * xval + offset)%Q.

(** Modelled from the spec: [EEGsynth.limit] lives in the shared library,
    outside the module; the spec gives [clamp(x, lo, hi)]. *)
Definition limit (xval lo hi : Q) : Q :=
  if Qlt_le_dec xval lo then lo
  else if Qlt_le_dec hi xval then hi
  else xval.

(** Python's [int(x)] on a float: truncation toward zero. *)
Definition py_int (x : Q) : Z := Z.quot (Qnum x) (Z.pos (Qden x)).

(** ["%03d" % n] for a non-negative [n]: decimal, zero-padded to width 3. *)
Definition fmt_03d (n : nat) : string :=
  let digits := NilZero.string_of_uint (Nat.to_uint n) in
  String.concat "" (replicate (3 - String.length digits) "0"%string) +:+ digits.

(** ["channel%03d" % (chanindx + 1)] *)
Definition chanstr_of (chanindx : nat) : string :=
  "channel" +:+ fmt_03d (chanindx + 1).

(** [patch.getfloat(section, key, default=d)] over a cycle's snapshot. *)
Definition getfloat (section : string -> option Q) (key : string) (default : Q) : Q :=
  match section key with
  | Some v => v
  | None => default
  end.

(** ** The module's phases *)

(** [_setup]: creates the patch and the monitor; it has no local variables,
    so nothing is printed. *)
Definition _setup : M unit := mret tt.

(** The size loop of [_start]: the last configured channel determines the
    size. *)
Definition last_configured (chanlist : list string) : nat :=
  fold_left
    (fun size chanindx =>
       if bool_decide (chanstr_of chanindx ∈ chanlist) then (chanindx + 1)%nat else size)
    (seq 0 512) 0%nat.

(** [_start].  The reads of the configuration and the construction of the
    [ArtNet] object are taken to succeed; the local [debug] is not used. *)
Definition _start (E : env) : M unit :=
  modify (set_address [0; 0; universe E]);;
  modify (set_dmxsize 0);;
  match input_items E with
  | [] => raise ValueError (* nothing to unzip: the two-name unpacking fails *)
  | items =>
      let chanlist := items.*1 in
      modify (set_dmxsize (last_configured chanlist));;
      (* FIXME the artnet code fails if the size is smaller than 512 *)
      modify (set_dmxsize 512);;
      size ← get dmxsize;
      emit (EvSize size);;
      modify (set_dmxframe (replicate size 0));;
      frame ← get dmxframe;
      addr ← get address;
      broadcastDMX E frame addr;;
      now ← time E;
      modify (set_prevtime now);;
      emit (EvPrint "LOCALS: debug, chanlist, chanvals, chanindx, chanstr")
  end.

(** The body of the channel loop of [_loop_once]. *)
Definition loop_body (c : cycle) (chanindx : nat) : M unit :=
  let chanstr := chanstr_of chanindx in
  match input c chanstr with
  | None => mret tt (* continue *)
  | Some chanval =>
      let scale := getfloat (scale c) chanstr 255 in
      let offset := getfloat (offset c) chanstr 0 in
      let chanval := rescale chanval scale offset in
      let chanval := limit chanval 0 255 in
      let chanval := py_int chanval in
      frame ← get dmxframe;
      match frame !! chanindx with
      | None => raise IndexError
      | Some stored =>
          if decide (stored = chanval) then mret tt
          else
            emit (EvChannel chanindx chanval);;
            modify (fun s => set_dmxframe (<[chanindx := chanval]> (dmxframe s)) s);;
            modify (set_update true)
      end
  end.

(** [artnet.broadcastDMX(dmxframe, address)] followed by
    [prevtime = time.time()], as both branches of [_loop_once] have it. *)
Definition send_and_stamp (E : env) : M unit :=
  frame ← get dmxframe;
  addr ← get address;
  broadcastDMX E frame addr;;
  now ← time E;
  modify (set_prevtime now).

(** First half of [_loop_once]: the scan over all channel indices. *)
Definition scan_channels (c : cycle) : M unit :=
  modify (set_update false);;
  size ← get dmxsize;
  for_each (seq 0 size) (loop_body c).

(** Second half of [_loop_once]: send on change, or as maintenance frame. *)
Definition maybe_send (E : env) : M unit :=
  changed ← get update;
  if changed : bool then send_and_stamp E
  else
    now ← time E;
    prev ← get prevtime;
    if Qlt_le_dec (1 # 2) (now - prev) then send_and_stamp E
    else mret tt.

(** [_loop_once]; all its variables are globals, so nothing is printed. *)
Definition _loop_once (E : env) (c : cycle) : M unit :=
  scan_channels c;;
  maybe_send E.

(** [_loop_forever], run over the cycles the environment provides.  [Ok]
    means that the loop is still running after the last of them. *)
Fixpoint _loop_forever (E : env) (cycles : list cycle) : M unit :=
  match cycles with
  | [] => mret tt
  | c :: later =>
      emit EvMonitorLoop;;
      _loop_once E c;;
      sleep (delay c);;
      match signal c with
      | Some e => raise e
      | None => mret tt
      end;;
      _loop_forever E later
  end.

(** One blanking send of [_stop] with the pause that follows it. *)
Definition blank_and_wait (E : env) (frame : list Z) : M unit :=
  addr ← get address;
  broadcastDMX E frame addr;;
  sleep (1 # 10).

(** [_stop] *)
Definition _stop (E : env) : M unit :=
  emit (EvSuccess "Stopping module...");;
  let dmxframe := replicate 512 0 in (* a local: the global frame is not assigned *)
  blank_and_wait E dmxframe;;
  blank_and_wait E dmxframe;;
  blank_and_wait E dmxframe;;
  blank_and_wait E dmxframe;;
  blank_and_wait E dmxframe;;
  blank_and_wait E dmxframe;;
  emit EvClose;;
  emit (EvSuccess "Done.").

(** How the process stands after the cycles the environment provides. *)
Inductive outcome : Type :=
  | Running               (* still inside [_loop_forever] *)
  | Exited                (* reached [sys.exit()] *)
  | Uncaught (e : exn).   (* an exception left [__main__] *)

(** [except (SystemExit, KeyboardInterrupt, RuntimeError)] *)
Definition handled (e : exn) : bool :=
  match e with
  | SystemExit | KeyboardInterrupt | RuntimeError => true
  | _ => false
  end.

(** The [__main__] block: [_setup] and [_start] outside the [try], the loop
    inside it, [_stop] in the handler, then [sys.exit()]. *)
Definition main (E : env) (cycles : list cycle) : outcome * state :=
  match (_setup;; _start E) initial with
  | Raise e s => (Uncaught e, s)
  | Ok _ s =>
      match _loop_forever E cycles s with
      | Ok _ s' => (Running, s')
      | Raise e s' =>
          if handled e then
            match _stop E s' with
            | Ok _ s'' => (Exited, s'')
            | Raise e' s'' => (Uncaught e', s'')
            end
          else (Uncaught e, s')
      end
  end.


(** ** Pure readings of the channel loop *)

(** The level the loop body computes for a channel, when its value is
    present. *)
Definition new_level (c : cycle) (chanindx : nat) : option Z :=
  let chanstr := chanstr_of chanindx in
  match input c chanstr with
  | None => None
  | Some chanval =>
      Some (py_int (limit (rescale chanval (getfloat (scale c) chanstr 255)
                                           (getfloat (offset c) chanstr 0)) 0 255))
  end.

(** A channel changes in a cycle when its new level is present and differs
    from the level stored in [frame]. *)
Definition changed (frame : list Z) (c : cycle) (chanindx : nat) : Prop :=
  exists level, new_level c chanindx = Some level /\ frame !! chanindx <> Some level.

(** [changed], as a test. *)
Definition changedb (frame : list Z) (c : cycle) (chanindx : nat) : bool :=
  match new_level c chanindx with
  | Some level => negb (bool_decide (frame !! chanindx = Some level))
  | None => false
  end.

(** The notification the loop body emits for a channel. *)
Definition notes (frame : list Z) (c : cycle) (chanindx : nat) : list event :=
  match new_level c chanindx with
  | Some level => if changedb frame c chanindx then [EvChannel chanindx level] else []
  | None => []
  end.

(** The frame entry the loop body leaves at a channel. *)
Definition scanned (frame : list Z) (c : cycle) (chanindx : nat) : option Z :=
  match new_level c chanindx with
  | Some level => Some level
  | None => frame !! chanindx
  end.

(** The frames a run may broadcast: complete, and to the configured
    universe of net 0, sub-net 0. *)
Definition full_frame (E : env) (ev : event) : Prop :=
  match ev with
  | EvBroadcast frame addr => length frame = 512%nat /\ addr = [0; 0; universe E]
  | _ => True
  end.

(** The event is a call of [broadcastDMX]. *)
Definition is_broadcast (ev : event) : bool :=
  match ev with
  | EvBroadcast _ _ => true
  | _ => false
  end.

(** The invariant of the globals once [_start] has returned. *)
Definition started (E : env) (s : state) : Prop :=
  address s = [0; 0; universe E] /\ dmxsize s = 512%nat /\ length (dmxframe s) = 512%nat.

(** What one pass over the channel indices [l] does to the state. *)
Record scan_post (c : cycle) (l : list nat) (s s1 : state) : Prop := {
  sp_address : address s1 = address s;
  sp_dmxsize : dmxsize s1 = dmxsize s;
  sp_prevtime : prevtime s1 = prevtime s;
  sp_ticks : ticks s1 = ticks s;
  sp_sends : sends s1 = sends s;
  sp_length : length (dmxframe s1) = length (dmxframe s);
  sp_frame : forall j,
    dmxframe s1 !! j =
      if bool_decide (j ∈ l) then scanned (dmxframe s) c j else dmxframe s !! j;
  sp_update : update s1 = update s || existsb (changedb (dmxframe s) c) l;
  sp_trace : trace s1 = trace s ++ concat (map (notes (dmxframe s) c) l)
}.

(** The frame entry at [chanindx] is the same in [s'] as in [s]. *)
Definition same_level (chanindx : nat) (s s' : state) : Prop :=
  dmxframe s' !! chanindx = dmxframe s !! chanindx.

(** The state invariant of a run together with the history it has produced:
    once the globals are as [_start] leaves them, they stay so, and every
    broadcast so far was a full frame to the configured universe. *)
Definition sound (E : env) (s : state) : Prop :=
  started E s /\ Forall (full_frame E) (trace s).

(** Soundness carries over from [s] to [s']. *)
Definition stays_sound (E : env) (s s' : state) : Prop :=
  sound E s -> sound E s'.

(** The history of [s'] extends the history of [s]. *)
Definition grows (s s' : state) : Prop :=
  exists later, trace s' = trace s ++ later.

(** A statement keeps a relation between the state before it and the state
    it ends in, whether it returns or raises. *)
Definition keeps (R : state -> state -> Prop) {A} (m : M A) : Prop :=
  forall s, R s (state_of (m s)).

(** ** Notions used by the statements *)

(** A broadcast carries the whole universe. *)
Definition complete_frame (ev : event) : Prop :=
  match ev with
  | EvBroadcast frame _ => length frame = 512%nat
  | _ => True
  end.

(** A broadcast goes to net 0, sub-net 0 and the configured universe. *)
Definition to_universe (E : env) (ev : event) : Prop :=
  match ev with
  | EvBroadcast _ addr => addr = [0; 0; universe E]
  | _ => True
  end.

(** The maintenance interval has elapsed at the clock reading the cycle
    takes in state [s]. *)
Definition overdue (E : env) (s : state) : Prop :=
  (1 # 2 < clock E (ticks s) - prevtime s)%Q.

(** The cycle that reached [s1] after its scan ended as [r] by sending the
    frame of [s1]; when the send returned, the time stamp is [now], and when
    it raised, the time stamp is as it was. *)
Definition sent_and_stamped (E : env) (s1 : state) (r : res unit) (now : Q) : Prop :=
  trace (state_of r) = trace s1 ++ [EvBroadcast (dmxframe s1) (address s1)]
  /\ match send_outcome E (sends s1) with
     | None => r = Ok tt (state_of r) /\ prevtime (state_of r) = now
     | Some e => r = Raise e (state_of r) /\ prevtime (state_of r) = prevtime s1
     end.

(** The cycle ended as [r] without sending and without touching the time
    stamp. *)
Definition not_sent (s1 : state) (r : res unit) : Prop :=
  r = Ok tt (state_of r)
  /\ trace (state_of r) = trace s1
  /\ prevtime (state_of r) = prevtime s1.

(** The clamped linear transform of a present value, with the cycle's
    scale and offset for the channel. *)
Definition clamped (c : cycle) (chanindx : nat) (v : Q) : Q :=
  limit (rescale v (getfloat (scale c) (chanstr_of chanindx) 255)
                   (getfloat (offset c) (chanstr_of chanindx) 0)) 0 255.

(** Rounding to the nearest integer as Python's [round] does it (ties go to
    the even neighbour); this follows the spec's wording, the code does not
    call it. *)
Definition py_round (x : Q) : Z :=
  let below := Qfloor x in
  let rest := (x - inject_Z below)%Q in
  if Qlt_le_dec rest (1 # 2) then below
  else if Qlt_le_dec (1 # 2) rest then below + 1
  else if Z.even below then below else below + 1.

(** The value-mapping sentence of the spec, read literally: the level
    written for a present value is the rounded clamped transform. *)
Definition writes_rounded_level : Prop :=
  forall c s i v,
    length (dmxframe s) = dmxsize s -> (i < dmxsize s)%nat ->
    input c (chanstr_of i) = Some v ->
    dmxframe (state_of (scan_channels c s)) !! i = Some (py_round (clamped c i v)).

(** The events of a complete shutdown towards [addr]. *)
Definition shutdown_events (addr : list Z) : list event :=
  let blank := EvBroadcast (replicate 512 0) addr in
  let pause := EvSleep (1 # 10) in
  [EvSuccess "Stopping module...";
   blank; pause; blank; pause; blank; pause; blank; pause; blank; pause; blank; pause;
   EvClose; EvSuccess "Done."].

(** No termination signal arrives during the cycles. *)
Definition no_signal (cycles : list cycle) : Prop :=
  Forall (fun c => signal c = None) cycles.

(** The error-handling sentence of the spec, read literally: when start-up
    succeeded and no termination signal arrives, the loop is still running
    after any number of cycles, whatever the sends inside the cycles do. *)
Definition send_failure_is_recoverable : Prop :=
  forall E cycles,
    input_items E <> [] -> send_outcome E 0 = None -> no_signal cycles ->
    fst (main E cycles) = Running.

(** ** Sample runs *)

(** One configured input channel, a clock that advances 0.3 per reading,
    and a network on which every send returns. *)
Definition lab : env :=
  mkEnv 1 [("channel001", "eeg.alpha")%string]
        (fun n => (inject_Z (Z.of_nat n) * (3 # 10))%Q) (fun _ => None).

(** As [lab], but the first send inside the loop raises. *)
Definition unplugged : env :=
  mkEnv 1 [("channel001", "eeg.alpha")%string]
        (fun n => (inject_Z (Z.of_nat n) * (3 # 10))%Q)
        (fun n => if decide (n = 1%nat) then Some OSError else None).

(** A cycle in which only the channel named [name] is present, with value
    [v]. *)
Definition single (name : string) (v : Q) : cycle :=
  mkCycle (fun key => if decide (key = name) then Some v else None)
          (fun _ => None) (fun _ => None) (1 # 20) None.

(** A cycle in which only [channel001] is present, with value [v]. *)
Definition only_first (v : Q) : cycle := single "channel001" v.

(** Ten cycles in which [channel001] flips between full and off. *)
Definition flicker : list cycle :=
  [only_first 1; only_first 0; only_first 1; only_first 0; only_first 1;
   only_first 0; only_first 1; only_first 0; only_first 1; only_first 0].

(** A cycle in which no channel is present and Ctrl-C arrives. *)
Definition interrupted : cycle :=
  mkCycle (fun _ => None) (fun _ => None) (fun _ => None) (1 # 20) (Some KeyboardInterrupt).

(** The state [_start] leaves in [lab]. *)
Definition lab_started : state := state_of ((_setup;; _start lab) initial).

(** The state [_start] leaves in [unplugged]. *)
Definition unplugged_started : state := state_of ((_setup;; _start unplugged) initial).

(** The state the first cycle of [unplugged] reaches after its scan. *)
Definition unplugged_scanned : state :=
  state_of (scan_channels (only_first 1) (log EvMonitorLoop unplugged_started)).

(** [lab] at the moment Ctrl-C ends its loop, after one lit cycle. *)
Definition lab_interrupted : state :=
  state_of (_loop_forever lab [only_first 1; interrupted] lab_started).

(** [lab] after a first cycle that set [channel005] to half. *)
Definition lab_fifth_half : state :=
  state_of (_loop_once lab (single "channel005" (1 # 2)) lab_started).

(** ** Further notions and sample runs *)

(** The broadcast events of a history all carry a frame with property [P]. *)
Definition frames_are (P : list Z -> Prop) (ev : event) : Prop :=
  match ev with
  | EvBroadcast frame _ => P frame
  | _ => True
  end.

(** Every entry of the frame fits one DMX byte. *)
Definition byte_frame (frame : list Z) : Prop :=
  Forall (fun level => 0 <= level <= 255) frame.

(** The globals of [s'] are those of [s]. *)
Definition same_globals (s s' : state) : Prop :=
  address s' = address s /\ dmxsize s' = dmxsize s /\ dmxframe s' = dmxframe s
  /\ prevtime s' = prevtime s /\ update s' = update s.

(** The history of [s'] extends the history of [s] by events with property
    [P] only. *)
Definition emits_only (P : event -> Prop) (s s' : state) : Prop :=
  exists later, trace s' = trace s ++ later /\ Forall P later.

(** The calls the start and the loop make: everything but the two calls of
    the shutdown, [monitor.success] and [artnet.close]. *)
Definition running_event (ev : event) : Prop :=
  match ev with
  | EvSuccess _ | EvClose => False
  | _ => True
  end.

(** The frame global and every frame broadcast so far have property [P]. *)
Definition framed (P : list Z -> Prop) (s : state) : Prop :=
  P (dmxframe s) /\ Forall (frames_are P) (trace s).

(** [framed] carries over from [s] to [s']. *)
Definition stays_framed (P : list Z -> Prop) (s s' : state) : Prop :=
  framed P s -> framed P s'.

(** A cycle in which no channel is present and the configured delay is
    negative. *)
Definition backwards : cycle :=
  mkCycle (fun _ => None) (fun _ => None) (fun _ => None) (-1 # 1) None.

(** A configuration whose input section is empty. *)
Definition no_inputs : env :=
  mkEnv 1 [] (fun n => (inject_Z (Z.of_nat n) * (3 # 10))%Q) (fun _ => None).

(** A network on which already the send of the start raises, with an
    exception the handler of the main block would catch. *)
Definition dead_network : env :=
  mkEnv 1 [("channel001", "eeg.alpha")%string]
        (fun n => (inject_Z (Z.of_nat n) * (3 # 10))%Q)
        (fun _ => Some RuntimeError).

(** A network that fails at the third send of the shutdown, when the run is
    [_start], one lit cycle, and a cycle ended by Ctrl-C. *)
Definition fails_in_shutdown : env :=
  mkEnv 1 [("channel001", "eeg.alpha")%string]
        (fun n => (inject_Z (Z.of_nat n) * (3 # 10))%Q)
        (fun n => if decide (n = 4%nat) then Some OSError else None).

(** The state of [fails_in_shutdown] when Ctrl-C has ended the loop. *)
Definition fails_in_shutdown_interrupted : state :=
  state_of (_loop_forever fails_in_shutdown [only_first 1; interrupted]
              (state_of ((_setup;; _start fails_in_shutdown) initial))).

(** * Properties *)

#[local] Arguments replicate : simpl never.

Ltac run :=
  unfold mbind, M_bind, mret, M_ret, get, modify, emit, raise, time; simpl.

(** Whether it returns or raises, [time.sleep] leaves the state with the
    call recorded and nothing else changed. *)
Lemma sleep_state d s : state_of (sleep d s) = log (EvSleep d) s.
Proof. unfold sleep. run. destruct (Qlt_le_dec d 0); reflexivity. Qed.

Lemma sleep_returns d s : (0 <= d)%Q -> sleep d s = Ok tt (log (EvSleep d) s).
Proof.
  intros Hd. unfold sleep. run. destruct (Qlt_le_dec d 0) as [Hlt|_]; [|reflexivity].
  exfalso. apply (Qlt_not_le _ _ Hlt Hd).
Qed.

Lemma sleep_raises d s : (d < 0)%Q -> sleep d s = Raise ValueError (log (EvSleep d) s).
Proof.
  intros Hd. unfold sleep. run. destruct (Qlt_le_dec d 0) as [_|Hle]; [reflexivity|].
  exfalso. apply (Qlt_not_le _ _ Hd Hle).
Qed.

Lemma changedb_spec frame c i : changedb frame c i = true <-> changed frame c i.
Proof.
  unfold changedb, changed. destruct (new_level c i) as [v|].
  - rewrite negb_true_iff, bool_decide_eq_false. split.
    + intros H. exists v. auto.
    + intros (v' & Hv & H). congruence.
  - split; [discriminate | intros (v & Hv & _); discriminate].
Qed.

Lemma loop_body_eq c i s :
  loop_body c i s =
    match new_level c i with
    | None => Ok tt s
    | Some v =>
        match dmxframe s !! i with
        | None => Raise IndexError s
        | Some stored =>
            if decide (stored = v) then Ok tt s
            else Ok tt (set_update true
                          (set_dmxframe (<[i := v]> (dmxframe s)) (log (EvChannel i v) s)))
        end
    end.
Proof.
  unfold loop_body, new_level. destruct (input c (chanstr_of i)); [|reflexivity].
  run. destruct (dmxframe s !! i); [|reflexivity].
  destruct (decide _); reflexivity.
Qed.

Lemma loop_body_post c i s :
  (i < length (dmxframe s))%nat ->
  exists s1, loop_body c i s = Ok tt s1 /\ scan_post c [i] s s1.
Proof.
  intros Hi. rewrite loop_body_eq.
  destruct (lookup_lt_is_Some_2 _ _ Hi) as [stored Hst].
  assert (Hfr : forall s1 : state,
             (forall j, j <> i -> dmxframe s1 !! j = dmxframe s !! j) ->
             dmxframe s1 !! i = scanned (dmxframe s) c i ->
             forall j, dmxframe s1 !! j =
               if bool_decide (j ∈ [i]) then scanned (dmxframe s) c j else dmxframe s !! j).
  { intros s1 Hne Heq j. case_bool_decide as Hj.
    - apply list_elem_of_singleton in Hj. subst j. exact Heq.
    - apply Hne. intros ->. apply Hj. apply list_elem_of_singleton. reflexivity. }
  destruct (new_level c i) as [v|] eqn:Hnl.
  - rewrite Hst. destruct (decide (stored = v)) as [->|Hne].
    + exists s. split; [reflexivity|].
      constructor; try reflexivity.
      * apply Hfr; [reflexivity|]. unfold scanned. rewrite Hnl. exact Hst.
      * simpl. unfold changedb. rewrite Hnl, Hst, bool_decide_eq_true_2 by reflexivity.
        simpl. rewrite !orb_false_r. reflexivity.
      * simpl. unfold notes, changedb.
        rewrite Hnl, Hst, bool_decide_eq_true_2 by reflexivity.
        simpl. rewrite app_nil_r. reflexivity.
    + eexists. split; [reflexivity|].
      constructor; try reflexivity.
      * simpl. apply length_insert.
      * apply Hfr; simpl.
        -- intros j Hj. apply list_lookup_insert_ne. auto.
        -- unfold scanned. rewrite Hnl. apply list_lookup_insert_eq. exact Hi.
      * simpl. unfold changedb. rewrite Hnl, Hst, bool_decide_eq_false_2 by congruence.
        simpl. rewrite orb_true_r. reflexivity.
      * simpl. unfold notes, changedb.
        rewrite Hnl, Hst, bool_decide_eq_false_2 by congruence. reflexivity.
  - exists s. split; [reflexivity|].
    constructor; try reflexivity.
    + apply Hfr; [reflexivity|]. unfold scanned. rewrite Hnl. reflexivity.
    + simpl. unfold changedb. rewrite Hnl. simpl. rewrite !orb_false_r. reflexivity.
    + simpl. unfold notes. rewrite Hnl. simpl. rewrite app_nil_r. reflexivity.
Qed.

Lemma changedb_agree frame frame' c j :
  frame' !! j = frame !! j -> changedb frame' c j = changedb frame c j.
Proof. unfold changedb. intros ->. reflexivity. Qed.

Lemma notes_agree frame frame' c j :
  frame' !! j = frame !! j -> notes frame' c j = notes frame c j.
Proof. unfold notes, changedb. intros ->. reflexivity. Qed.

Lemma scanned_agree frame frame' c j :
  frame' !! j = frame !! j -> scanned frame' c j = scanned frame c j.
Proof. unfold scanned. intros ->. reflexivity. Qed.

Lemma existsb_agree {A} (f g : A -> bool) l :
  (forall x, x ∈ l -> f x = g x) -> existsb f l = existsb g l.
Proof.
  induction l as [|x l IH]; intros H; simpl; [reflexivity|].
  rewrite (H x) by apply list_elem_of_here.
  rewrite IH; [reflexivity|]. intros y Hy. apply H. apply list_elem_of_further, Hy.
Qed.

Lemma concat_map_agree {A B} (f g : A -> list B) l :
  (forall x, x ∈ l -> f x = g x) -> concat (map f l) = concat (map g l).
Proof.
  induction l as [|x l IH]; intros H; simpl; [reflexivity|].
  rewrite (H x) by apply list_elem_of_here.
  rewrite IH; [reflexivity|]. intros y Hy. apply H. apply list_elem_of_further, Hy.
Qed.

(** The channel loop over distinct in-range indices never raises, and it
    treats every index against the frame as it stood before the loop. *)
Lemma scan_list c l :
  forall s, NoDup l -> (forall i, i ∈ l -> (i < length (dmxframe s))%nat) ->
  exists s1, for_each l (loop_body c) s = Ok tt s1 /\ scan_post c l s s1.
Proof.
  induction l as [|i l IH]; intros s Hnd Hin.
  - exists s. split; [reflexivity|]. constructor; simpl; auto.
    + rewrite orb_false_r. reflexivity.
    + rewrite app_nil_r. reflexivity.
  - apply NoDup_cons in Hnd as [Hni Hnd].
    destruct (loop_body_post c i s) as (s' & Hbody & P1).
    { apply Hin, list_elem_of_here. }
    destruct (IH s' Hnd) as (s1 & Hrest & P2).
    { intros j Hj. rewrite (sp_length _ _ _ _ P1). apply Hin, list_elem_of_further, Hj. }
    assert (Hsame : forall j, j ∈ l -> dmxframe s' !! j = dmxframe s !! j).
    { intros j Hj. rewrite (sp_frame _ _ _ _ P1). rewrite bool_decide_eq_false_2; [reflexivity|].
      intros Hji. apply list_elem_of_singleton in Hji. subst j. auto. }
    exists s1. split.
    { simpl. unfold mbind, M_bind. rewrite Hbody. exact Hrest. }
    destruct P1, P2. constructor; try congruence.
    + intros j. rewrite sp_frame1. simpl in sp_frame0.
      destruct (decide (j ∈ l)) as [Hj|Hj].
      * rewrite bool_decide_eq_true_2 by exact Hj.
        rewrite bool_decide_eq_true_2 by (apply list_elem_of_further, Hj).
        apply scanned_agree, Hsame, Hj.
      * rewrite bool_decide_eq_false_2 by exact Hj.
        rewrite sp_frame0.
        destruct (decide (j = i)) as [->|Hji].
        -- rewrite !bool_decide_eq_true_2 by apply list_elem_of_here. reflexivity.
        -- rewrite !bool_decide_eq_false_2; [reflexivity| |].
           ++ intros H. apply elem_of_cons in H as [?|?]; auto.
           ++ intros H. apply list_elem_of_singleton in H. auto.
    + rewrite sp_update1, sp_update0. simpl. rewrite orb_false_r, orb_assoc.
      f_equal. apply existsb_agree. intros j Hj. apply changedb_agree, Hsame, Hj.
    + rewrite sp_trace1, sp_trace0. simpl. rewrite app_nil_r, <- app_assoc.
      f_equal. f_equal. apply concat_map_agree. intros j Hj. apply notes_agree, Hsame, Hj.
Qed.

Lemma notes_in frame c i ev :
  In ev (notes frame c i) <->
  exists level, ev = EvChannel i level /\ new_level c i = Some level
                /\ frame !! i <> Some level.
Proof.
  unfold notes, changedb. destruct (new_level c i) as [v|].
  - destruct (decide (frame !! i = Some v)) as [Heq|Hne].
    + rewrite bool_decide_eq_true_2 by exact Heq. simpl. split; [tauto|].
      intros (w & _ & Hw & Hd). congruence.
    + rewrite bool_decide_eq_false_2 by exact Hne. simpl. split.
      * intros [<-|[]]. exists v. auto.
      * intros (w & -> & Hw & _). left. congruence.
  - simpl. split; [tauto|]. intros (w & _ & Hw & _). discriminate.
Qed.

Lemma scan_channels_post c s :
  length (dmxframe s) = dmxsize s ->
  exists s1, scan_channels c s = Ok tt s1
             /\ scan_post c (seq 0 (dmxsize s)) (set_update false s) s1.
Proof.
  intros Hlen. unfold scan_channels. run.
  apply (scan_list c (seq 0 (dmxsize s)) (set_update false s)).
  - apply NoDup_seq.
  - intros i Hi. apply elem_of_seq in Hi. simpl. lia.
Qed.

(** C2.  Change detection in one scan: the scan does not raise; at its end
    [update] is true exactly when some channel index has a present value
    whose computed level differs from the level the frame held at that index;
    each such level is stored at its index; and the notifications emitted are
    exactly those of the channels that changed. *)
Theorem dirty_iff_some_level_differs (c : cycle) (s : state) :
  length (dmxframe s) = dmxsize s ->
  exists s1 new,
    scan_channels c s = Ok tt s1
    /\ trace s1 = trace s ++ new
    /\ (update s1 = true <->
        exists i, (i < dmxsize s)%nat /\ changed (dmxframe s) c i)
    /\ (forall i level,
          (i < dmxsize s)%nat -> new_level c i = Some level ->
          dmxframe s !! i <> Some level ->
          dmxframe s1 !! i = Some level /\ In (EvChannel i level) new)
    /\ (forall ev, In ev new ->
          exists i level, ev = EvChannel i level /\ (i < dmxsize s)%nat
                          /\ new_level c i = Some level
                          /\ dmxframe s !! i <> Some level).
Proof.
  intros Hlen. destruct (scan_channels_post c s Hlen) as (s1 & Hrun & P).
  destruct P. simpl in *.
  exists s1, (concat (map (notes (dmxframe s) c) (seq 0 (dmxsize s)))).
  split; [exact Hrun|]. split; [exact sp_trace0|]. split; [|split].
  - rewrite sp_update0. rewrite existsb_exists. split.
    + intros (i & Hi & Hc). exists i. apply in_seq in Hi.
      apply changedb_spec in Hc. split; [lia | exact Hc].
    + intros (i & Hi & Hc). exists i. split.
      * apply in_seq. lia.
      * apply changedb_spec, Hc.
  - intros i level Hi Hnew Hdiff. split.
    + rewrite sp_frame0. rewrite bool_decide_eq_true_2 by (apply elem_of_seq; lia).
      unfold scanned. rewrite Hnew. reflexivity.
    + apply in_concat. exists (notes (dmxframe s) c i). split.
      * apply in_map. apply in_seq. lia.
      * apply notes_in. exists level. auto.
  - intros ev Hev. apply in_concat in Hev as (l & Hl & Hev).
    apply in_map_iff in Hl as (i & <- & Hi). apply in_seq in Hi.
    apply notes_in in Hev as (level & -> & Hnew & Hdiff).
    exists i, level. repeat split; auto. lia.
Qed.

Lemma dirty_iff_some_level_differs_witness :
  length (dmxframe lab_started) = dmxsize lab_started
  /\ exists s1 new,
       scan_channels (only_first 1) lab_started = Ok tt s1
       /\ trace s1 = trace lab_started ++ new
       /\ update s1 = true
       /\ dmxframe s1 !! 0%nat = Some 255
       /\ In (EvChannel 0 255) new.
Proof.
  assert (Hlen : length (dmxframe lab_started) = dmxsize lab_started)
    by (vm_compute; reflexivity).
  split; [exact Hlen|].
  destruct (dirty_iff_some_level_differs (only_first 1) lab_started Hlen)
    as (s1 & new & Hscan & Htr & Hdirty & Hstore & _).
  assert (Hi : (0 < dmxsize lab_started)%nat) by (vm_compute; lia).
  assert (Hnew : new_level (only_first 1) 0 = Some 255) by (vm_compute; reflexivity).
  assert (Hold : dmxframe lab_started !! 0%nat <> Some 255) by (vm_compute; discriminate).
  destruct (Hstore 0%nat 255 Hi Hnew Hold) as [Hframe Hnote].
  exists s1, new. repeat (split; [assumption|]). split; [|split; assumption].
  apply Hdirty. exists 0%nat. split; [exact Hi|]. exists 255. auto.
Defined.

(** ** Relations kept by every statement *)

Section Keeps.
Variable R : state -> state -> Prop.
Hypothesis R_refl : forall s, R s s.
Hypothesis R_trans : forall s1 s2 s3, R s1 s2 -> R s2 s3 -> R s1 s3.

Lemma keeps_ret {A} (a : A) : keeps R (mret a).
Proof. intros s. apply R_refl. Qed.

Lemma keeps_raise {A} e : keeps R (raise (A := A) e).
Proof. intros s. apply R_refl. Qed.

Lemma keeps_get {A} (field : state -> A) : keeps R (get field).
Proof. intros s. apply R_refl. Qed.

Lemma keeps_bind {A B} (m : M A) (k : A -> M B) :
  keeps R m -> (forall a, keeps R (k a)) -> keeps R (m ≫= k).
Proof.
  intros Hm Hk s. unfold mbind, M_bind. specialize (Hm s).
  destruct (m s) as [a s'|e s']; simpl in *; [|exact Hm].
  eapply R_trans; [exact Hm | apply Hk].
Qed.

Lemma keeps_modify f : (forall s, R s (f s)) -> keeps R (modify f).
Proof. intros H s. apply H. Qed.

Lemma keeps_sleep d : (forall s, R s (log (EvSleep d) s)) -> keeps R (sleep d).
Proof. intros H s. rewrite sleep_state. apply H. Qed.

Lemma keeps_for_each {A} (xs : list A) body :
  (forall x, keeps R (body x)) -> keeps R (for_each xs body).
Proof.
  intros H. induction xs as [|x xs IH]; simpl.
  - apply keeps_ret.
  - apply keeps_bind; auto.
Qed.
End Keeps.

Lemma same_level_refl i s : same_level i s s.
Proof. reflexivity. Qed.

Lemma same_level_trans i s1 s2 s3 :
  same_level i s1 s2 -> same_level i s2 s3 -> same_level i s1 s3.
Proof. unfold same_level. congruence. Qed.

Lemma stays_sound_refl E s : stays_sound E s s.
Proof. intros H. exact H. Qed.

Lemma stays_sound_trans E s1 s2 s3 :
  stays_sound E s1 s2 -> stays_sound E s2 s3 -> stays_sound E s1 s3.
Proof. unfold stays_sound. auto. Qed.

(** Statements that leave the frame alone. *)
Lemma keeps_level_time i E : keeps (same_level i) (time E).
Proof. intros s. reflexivity. Qed.

Lemma keeps_level_broadcast i E frame addr :
  keeps (same_level i) (broadcastDMX E frame addr).
Proof.
  intros s. unfold broadcastDMX. destruct (send_outcome E (sends s)); reflexivity.
Qed.

Ltac keep_level :=
  repeat match goal with
    | |- keeps _ (mbind _ _) => apply keeps_bind; [apply same_level_trans | | intros ?]
    | |- keeps _ (get _) => apply keeps_get; apply same_level_refl
    | |- keeps _ (mret _) => apply keeps_ret; apply same_level_refl
    | |- keeps _ (raise _) => apply keeps_raise; apply same_level_refl
    | |- keeps _ (broadcastDMX _ _ _) => apply keeps_level_broadcast
    | |- keeps _ (time _) => apply keeps_level_time
    | |- keeps _ (modify _) => apply keeps_modify; intros ?; reflexivity
    | |- keeps _ (emit _) => apply keeps_modify; intros ?; reflexivity
    | |- keeps _ (sleep _) => apply keeps_sleep; intros ?; reflexivity
    end.

Lemma keeps_level_send_and_stamp i E : keeps (same_level i) (send_and_stamp E).
Proof. unfold send_and_stamp. keep_level. Qed.

Lemma keeps_level_maybe_send i E : keeps (same_level i) (maybe_send E).
Proof.
  unfold maybe_send.
  apply keeps_bind; [apply same_level_trans | keep_level | intros dirty].
  destruct dirty; [apply keeps_level_send_and_stamp|]. keep_level.
  destruct (Qlt_le_dec _ _); [apply keeps_level_send_and_stamp | keep_level].
Qed.

(** A channel whose value is absent is skipped; any other index of the loop
    can only write its own entry. *)
Lemma keeps_level_loop_body i c j :
  input c (chanstr_of i) = None -> keeps (same_level i) (loop_body c j).
Proof.
  intros Habs s. rewrite loop_body_eq. unfold same_level.
  destruct (new_level c j) as [v|] eqn:Hnl; [|reflexivity].
  destruct (dmxframe s !! j) as [stored|]; [|reflexivity].
  destruct (decide (stored = v)); [reflexivity|]. simpl.
  apply list_lookup_insert_ne. intros ->.
  unfold new_level in Hnl. rewrite Habs in Hnl. discriminate.
Qed.

Lemma keeps_level_loop_once i E c :
  input c (chanstr_of i) = None -> keeps (same_level i) (_loop_once E c).
Proof.
  intros Habs. unfold _loop_once, scan_channels. keep_level.
  - apply keeps_for_each; [apply same_level_refl | apply same_level_trans |].
    intros j. apply keeps_level_loop_body, Habs.
  - apply keeps_level_maybe_send.
Qed.

Lemma keeps_level_loop_forever i E cycles :
  Forall (fun c => input c (chanstr_of i) = None) cycles ->
  keeps (same_level i) (_loop_forever E cycles).
Proof.
  induction 1 as [|c cycles Habs _ IH]; simpl; keep_level.
  - apply keeps_level_loop_once, Habs.
  - destruct (signal c); keep_level.
  - exact IH.
Qed.

(** ** The run invariant *)

Lemma sound_step E s s' new :
  address s' = address s -> dmxsize s' = dmxsize s ->
  length (dmxframe s') = length (dmxframe s) ->
  trace s' = trace s ++ new -> Forall (full_frame E) new ->
  stays_sound E s s'.
Proof.
  intros Ha Hn Hl Ht Hnew [(A & N & L) T]. split.
  - unfold started. rewrite Ha, Hn, Hl. auto.
  - rewrite Ht. apply Forall_app. auto.
Qed.

Lemma sound_quiet E s s' :
  address s' = address s -> dmxsize s' = dmxsize s ->
  length (dmxframe s') = length (dmxframe s) ->
  trace s' = trace s ->
  stays_sound E s s'.
Proof.
  intros Ha Hn Hl Ht. apply (sound_step E s s' []); auto.
  rewrite app_nil_r. exact Ht.
Qed.

Lemma keeps_sound_time E : keeps (stays_sound E) (time E).
Proof. intros s. apply sound_quiet; reflexivity. Qed.

(** Broadcasting the current frame to the current address. *)
Lemma keeps_sound_broadcast_current E s :
  stays_sound E s (state_of (broadcastDMX E (dmxframe s) (address s) s)).
Proof.
  intros H. generalize H. destruct H as [(A & N & L) T].
  apply (sound_step E s _ [EvBroadcast (dmxframe s) (address s)]);
    unfold broadcastDMX; destruct (send_outcome E (sends s)); try reflexivity.
  all: constructor; [split; assumption | constructor].
Qed.

(** Broadcasting a blank frame to the current address. *)
Lemma keeps_sound_broadcast_blank E s :
  stays_sound E s (state_of (broadcastDMX E (replicate 512 0) (address s) s)).
Proof.
  intros H. generalize H. destruct H as [(A & N & L) T].
  apply (sound_step E s _ [EvBroadcast (replicate 512 0) (address s)]);
    unfold broadcastDMX; destruct (send_outcome E (sends s)); try reflexivity.
  all: constructor; [split; [apply length_replicate | assumption] | constructor].
Qed.

Ltac keep_sound :=
  repeat match goal with
    | |- keeps _ (mbind _ _) => apply keeps_bind; [apply stays_sound_trans | | intros ?]
    | |- keeps _ (get _) => apply keeps_get; apply stays_sound_refl
    | |- keeps _ (mret _) => apply keeps_ret; apply stays_sound_refl
    | |- keeps _ (raise _) => apply keeps_raise; apply stays_sound_refl
    | |- keeps _ (time _) => apply keeps_sound_time
    | |- keeps _ (sleep ?d) =>
        apply keeps_sleep; intros ?;
        apply (sound_step _ _ _ [EvSleep d]); try reflexivity;
        constructor; [exact I | constructor]
    | |- keeps _ (modify (set_update _)) =>
        apply keeps_modify; intros ?; apply sound_quiet; reflexivity
    | |- keeps _ (modify (set_prevtime _)) =>
        apply keeps_modify; intros ?; apply sound_quiet; reflexivity
    end.

Lemma keeps_sound_note E ev : full_frame E ev -> keeps (stays_sound E) (emit ev).
Proof.
  intros Hev s. apply (sound_step E s _ [ev]); try reflexivity.
  constructor; [exact Hev | constructor].
Qed.

Lemma keeps_sound_send_and_stamp E : keeps (stays_sound E) (send_and_stamp E).
Proof.
  intros s. unfold send_and_stamp.
  change (stays_sound E s
            (state_of ((broadcastDMX E (dmxframe s) (address s)
                          ≫= λ _, time E ≫= λ now, modify (set_prevtime now)) s))).
  revert s. apply keeps_bind; [apply stays_sound_trans | | intros ?; keep_sound].
  intros s. apply keeps_sound_broadcast_current.
Qed.

Lemma keeps_sound_maybe_send E : keeps (stays_sound E) (maybe_send E).
Proof.
  unfold maybe_send.
  apply keeps_bind; [apply stays_sound_trans | keep_sound | intros dirty].
  destruct dirty; [apply keeps_sound_send_and_stamp|]. keep_sound.
  destruct (Qlt_le_dec _ _); [apply keeps_sound_send_and_stamp | keep_sound].
Qed.

Lemma keeps_sound_loop_body E c j : keeps (stays_sound E) (loop_body c j).
Proof.
  intros s. rewrite loop_body_eq.
  destruct (new_level c j) as [v|]; [|apply stays_sound_refl].
  destruct (dmxframe s !! j) as [stored|]; [|apply stays_sound_refl].
  destruct (decide (stored = v)); [apply stays_sound_refl|]. simpl.
  apply (sound_step E s _ [EvChannel j v]); try reflexivity.
  - simpl. apply length_insert.
  - constructor; [exact I | constructor].
Qed.

Lemma keeps_sound_loop_once E c : keeps (stays_sound E) (_loop_once E c).
Proof.
  unfold _loop_once, scan_channels. keep_sound.
  - apply keeps_for_each; [apply stays_sound_refl | apply stays_sound_trans |].
    intros j. apply keeps_sound_loop_body.
  - apply keeps_sound_maybe_send.
Qed.

Lemma keeps_sound_loop_forever E cycles : keeps (stays_sound E) (_loop_forever E cycles).
Proof.
  induction cycles as [|c cycles IH]; simpl; keep_sound.
  - apply keeps_sound_note. exact I.
  - apply keeps_sound_loop_once.
  - destruct (signal c); keep_sound.
  - exact IH.
Qed.

Lemma keeps_sound_blank_and_wait E :
  keeps (stays_sound E) (blank_and_wait E (replicate 512 0)).
Proof.
  intros s. unfold blank_and_wait.
  change (stays_sound E s
            (state_of ((broadcastDMX E (replicate 512 0) (address s)
                          ≫= λ _, sleep (1 # 10)) s))).
  revert s. apply keeps_bind; [apply stays_sound_trans | | intros ?; keep_sound].
  intros s. apply keeps_sound_broadcast_blank.
Qed.

Lemma keeps_sound_stop E : keeps (stays_sound E) (_stop E).
Proof.
  unfold _stop.
  repeat (apply keeps_bind;
          [apply stays_sound_trans
          | first [apply keeps_sound_blank_and_wait | apply keeps_sound_note; exact I]
          | intros ?]).
  apply keeps_sound_note. exact I.
Qed.

(** ** The start phase *)

Lemma start_eq E :
  (_setup;; _start E) initial =
    match input_items E with
    | [] => Raise ValueError (mkState [0; 0; universe E] 0 [] 0%Q false [] 0 0)
    | _ :: _ =>
        let blank := EvBroadcast (replicate 512 0) [0; 0; universe E] in
        match send_outcome E 0 with
        | Some e =>
            Raise e (mkState [0; 0; universe E] 512 (replicate 512 0) 0%Q false
                       [EvSize 512; blank] 0 1)
        | None =>
            Ok tt (mkState [0; 0; universe E] 512 (replicate 512 0) (clock E 0) false
                     [EvSize 512; blank;
                      EvPrint "LOCALS: debug, chanlist, chanvals, chanindx, chanstr"]
                     1 1)
        end
    end.
Proof.
  unfold _setup, _start.
  destruct (input_items E) as [|item items]; [reflexivity|].
  unfold initial, broadcastDMX. run. destruct (send_outcome E 0); reflexivity.
Qed.

Lemma start_sound E :
  Forall (full_frame E) (trace (state_of ((_setup;; _start E) initial)))
  /\ forall s0, (_setup;; _start E) initial = Ok tt s0 -> started E s0.
Proof.
  rewrite start_eq.
  assert (Hblank : full_frame E (EvBroadcast (replicate 512 0) [0; 0; universe E])).
  { split; [apply length_replicate | reflexivity]. }
  destruct (input_items E) as [|item items].
  { split; [constructor | discriminate]. }
  destruct (send_outcome E 0); cbv zeta.
  - split; [|discriminate]. unfold state_of, trace. repeat (constructor; try exact Hblank).
  - split.
    + unfold state_of, trace. repeat (constructor; try exact Hblank).
    + intros s0 [= <-]. split; [reflexivity | split; [reflexivity | apply length_replicate]].
Qed.

(** Every state a run ends in has only full frames to the configured
    universe in its history, and has the globals as [_start] left them when
    [_start] returned. *)
Lemma main_sound E cycles :
  Forall (full_frame E) (trace (snd (main E cycles)))
  /\ (forall s0, (_setup;; _start E) initial = Ok tt s0 ->
      started E (snd (main E cycles))).
Proof.
  destruct (start_sound E) as [Htr Hst]. unfold main.
  destruct ((_setup;; _start E) initial) as [[] s0|e s0]; simpl in *.
  2: { split; [exact Htr | discriminate]. }
  assert (S0 : sound E s0) by (split; auto).
  pose proof (keeps_sound_loop_forever E cycles s0 S0) as S1.
  destruct (_loop_forever E cycles s0) as [[] s1|e s1]; simpl in *.
  { destruct S1. split; auto. }
  destruct (handled e); simpl.
  2: { destruct S1. split; auto. }
  pose proof (keeps_sound_stop E s1 S1) as S2.
  destruct (_stop E s1) as [[] s2|e2 s2]; simpl in *; destruct S2; split; auto.
Qed.

(** ** The send decision *)

Lemma send_and_stamp_eq E s :
  send_and_stamp E s =
    let s' := count_send (log (EvBroadcast (dmxframe s) (address s)) s) in
    match send_outcome E (sends s) with
    | None => Ok tt (set_prevtime (clock E (ticks s)) (tick s'))
    | Some e => Raise e s'
    end.
Proof.
  unfold send_and_stamp, broadcastDMX. run.
  destruct (send_outcome E (sends s)); reflexivity.
Qed.

Lemma maybe_send_eq E s :
  maybe_send E s =
    if update s then send_and_stamp E s
    else if Qlt_le_dec (1 # 2) (clock E (ticks s) - prevtime s)
         then send_and_stamp E (tick s)
         else Ok tt (tick s).
Proof.
  unfold maybe_send. run. destruct (update s); [reflexivity|].
  destruct (Qlt_le_dec _ _); reflexivity.
Qed.

Lemma loop_once_eq E c s s1 :
  scan_channels c s = Ok tt s1 -> _loop_once E c s = maybe_send E s1.
Proof. intros H. unfold _loop_once. unfold mbind, M_bind. rewrite H. reflexivity. Qed.

(** C1.  The send decision of a cycle.  After the scan (which returns, in
    state [s1], with the time stamp untouched) the frame is handed to the
    transmitter exactly in two cases: the cycle is dirty, or it is idle and
    more than 0.5 has elapsed on the clock since the time stamp.  In both
    cases a send that returns is followed by setting the time stamp to a
    fresh clock reading; in the remaining case nothing is sent and the time
    stamp stays. *)
Theorem transmit_iff_dirty_or_overdue (E : env) (c : cycle) (s : state) :
  length (dmxframe s) = dmxsize s ->
  exists s1,
    scan_channels c s = Ok tt s1
    /\ prevtime s1 = prevtime s
    /\ (update s1 = true ->
        sent_and_stamped E s1 (_loop_once E c s) (clock E (ticks s1)))
    /\ (update s1 = false -> overdue E s1 ->
        sent_and_stamped E s1 (_loop_once E c s) (clock E (S (ticks s1))))
    /\ (update s1 = false -> ~ overdue E s1 ->
        not_sent s1 (_loop_once E c s)).
Proof.
  intros Hlen. destruct (scan_channels_post c s Hlen) as (s1 & Hscan & P).
  exists s1. split; [exact Hscan|]. split; [apply (sp_prevtime _ _ _ _ P)|].
  rewrite (loop_once_eq E c s s1 Hscan), maybe_send_eq.
  unfold overdue, sent_and_stamped, not_sent.
  split; [|split].
  - intros ->. rewrite send_and_stamp_eq. cbv zeta.
    destruct (send_outcome E (sends s1)); simpl; auto.
  - intros -> Hdue. destruct (Qlt_le_dec _ _) as [_|Hle].
    2: { exfalso. apply (Qlt_not_le _ _ Hdue Hle). }
    rewrite send_and_stamp_eq. cbv zeta. simpl.
    destruct (send_outcome E (sends s1)); simpl; auto.
  - intros -> Hnot. destruct (Qlt_le_dec _ _) as [Hlt|_]; [contradiction|].
    simpl. auto.
Qed.

(** In [lab], the first cycle turns [channel001] on, so it is dirty: it
    sends, and stamps with the clock reading taken after the send. *)
Lemma transmit_iff_dirty_or_overdue_witness :
  length (dmxframe lab_started) = dmxsize lab_started
  /\ exists s1,
       scan_channels (only_first 1) lab_started = Ok tt s1
       /\ update s1 = true
       /\ sent_and_stamped lab s1 (_loop_once lab (only_first 1) lab_started)
            (clock lab (ticks s1)).
Proof.
  assert (Hlen : length (dmxframe lab_started) = dmxsize lab_started)
    by (vm_compute; reflexivity).
  split; [exact Hlen|].
  destruct (transmit_iff_dirty_or_overdue lab (only_first 1) lab_started Hlen)
    as (s1 & Hscan & _ & Hdirty & _).
  exists s1.
  assert (Hup : update s1 = true).
  { assert (Hs : update (state_of (scan_channels (only_first 1) lab_started)) = true)
      by (vm_compute; reflexivity).
    rewrite Hscan in Hs. exact Hs. }
  auto.
Defined.

(** ** Value mapping *)

Lemma limit_bounds x lo hi : (lo <= hi)%Q -> (lo <= limit x lo hi <= hi)%Q.
Proof.
  intros Hlohi. unfold limit.
  destruct (Qlt_le_dec x lo) as [Hlt|Hge].
  - split; [apply Qle_refl | exact Hlohi].
  - destruct (Qlt_le_dec hi x) as [Hgt|Hle].
    + split; [exact Hlohi | apply Qle_refl].
    + split; assumption.
Qed.

(** On a non-negative float, [int] is the floor. *)
Lemma py_int_floor x : (0 <= x)%Q -> py_int x = Qfloor x.
Proof.
  destruct x as [n d]. unfold Qle, py_int, Qfloor. simpl. intros Hn.
  apply Z.quot_div_nonneg; lia.
Qed.

Lemma clamped_bounds c i v : (0 <= clamped c i v <= 255)%Q.
Proof. unfold clamped. apply limit_bounds. discriminate. Qed.

Lemma new_level_present c i v :
  input c (chanstr_of i) = Some v -> new_level c i = Some (py_int (clamped c i v)).
Proof. intros H. unfold new_level, clamped. rewrite H. reflexivity. Qed.

(** A present channel ends the scan holding its new level. *)
Lemma scan_stores_level c s i v :
  length (dmxframe s) = dmxsize s -> (i < dmxsize s)%nat ->
  input c (chanstr_of i) = Some v ->
  dmxframe (state_of (scan_channels c s)) !! i = Some (py_int (clamped c i v)).
Proof.
  intros Hlen Hi Hv. destruct (scan_channels_post c s Hlen) as (s1 & Hscan & P).
  rewrite Hscan. simpl. rewrite (sp_frame _ _ _ _ P).
  rewrite bool_decide_eq_true_2 by (apply elem_of_seq; lia).
  unfold scanned. rewrite (new_level_present c i v Hv). reflexivity.
Qed.

(** C3, as stated, fails: with the default scale 255 and offset 0 the value
    0.999 maps to 254.745, whose nearest integer is 255, but the frame
    receives 254. *)
Lemma level_is_not_rounded : ~ writes_rounded_level.
Proof.
  intros H.
  specialize (H (only_first (999 # 1000)) lab_started 0%nat (999 # 1000)%Q).
  assert (Hcode : dmxframe (state_of (scan_channels (only_first (999 # 1000)) lab_started))
                    !! 0%nat = Some 254) by (vm_compute; reflexivity).
  assert (Hspec : py_round (clamped (only_first (999 # 1000)) 0 (999 # 1000)) = 255)
    by (vm_compute; reflexivity).
  rewrite Hcode, Hspec in H.
  assert (Hfalse : Some 254 = Some 255).
  { apply H; vm_compute; first [reflexivity | lia]. }
  discriminate Hfalse.
Qed.

(** C3, amended.  For every channel index of the frame with a present raw
    value, the level the scan leaves in the frame is the clamped linear
    transform truncated to an integer: the largest integer not above it. *)
Theorem level_is_truncated (c : cycle) (s : state) (i : nat) (v : Q) :
  length (dmxframe s) = dmxsize s -> (i < dmxsize s)%nat ->
  input c (chanstr_of i) = Some v ->
  exists level,
    dmxframe (state_of (scan_channels c s)) !! i = Some level
    /\ level = Qfloor (clamped c i v)
    /\ (inject_Z level <= clamped c i v < inject_Z level + 1)%Q.
Proof.
  intros Hlen Hi Hv. exists (py_int (clamped c i v)).
  split; [apply scan_stores_level; assumption|].
  rewrite py_int_floor by apply clamped_bounds.
  split; [reflexivity|]. split.
  - apply Qfloor_le.
  - change 1%Q with (inject_Z 1). rewrite <- inject_Z_plus. apply Qlt_floor.
Qed.

Lemma level_is_truncated_witness :
  length (dmxframe lab_started) = dmxsize lab_started
  /\ (0 < dmxsize lab_started)%nat
  /\ input (only_first (999 # 1000)) (chanstr_of 0) = Some (999 # 1000)%Q
  /\ exists level,
       dmxframe (state_of (scan_channels (only_first (999 # 1000)) lab_started)) !! 0%nat
         = Some level
       /\ level = Qfloor (clamped (only_first (999 # 1000)) 0 (999 # 1000))
       /\ (inject_Z level <= clamped (only_first (999 # 1000)) 0 (999 # 1000)
           < inject_Z level + 1)%Q.
Proof.
  assert (Hlen : length (dmxframe lab_started) = dmxsize lab_started)
    by (vm_compute; reflexivity).
  assert (Hi : (0 < dmxsize lab_started)%nat) by (vm_compute; lia).
  assert (Hv : input (only_first (999 # 1000)) (chanstr_of 0) = Some (999 # 1000)%Q)
    by (vm_compute; reflexivity).
  repeat (split; [assumption|]).
  exact (level_is_truncated (only_first (999 # 1000)) lab_started 0 (999 # 1000) Hlen Hi Hv).
Defined.

(** C4.  Whatever the raw value, scale and offset, the level computed for a
    channel is an integer between 0 and 255. *)
Theorem level_in_range (c : cycle) (i : nat) (level : Z) :
  new_level c i = Some level -> 0 <= level <= 255.
Proof.
  unfold new_level. destruct (input c (chanstr_of i)) as [v|]; [|discriminate].
  intros [= <-]. fold (clamped c i v).
  destruct (clamped_bounds c i v) as [Hlo Hhi].
  rewrite py_int_floor by exact Hlo. split.
  - change 0 with (Qfloor 0). apply Qfloor_resp_le, Hlo.
  - change 255 with (Qfloor 255). apply Qfloor_resp_le, Hhi.
Qed.

Lemma level_in_range_witness :
  new_level (only_first (-1000 # 1)) 0 = Some 0 /\ 0 <= 0 <= 255.
Proof.
  assert (H : new_level (only_first (-1000 # 1)) 0 = Some 0) by (vm_compute; reflexivity).
  split; [exact H|].
  exact (level_in_range (only_first (-1000 # 1)) 0 0 H).
Defined.

Example level_far_above : new_level (only_first (1000 # 1)) 0 = Some 255.
Proof. vm_compute. reflexivity. Qed.

(** ** Frame size and address over whole runs *)

Lemma full_frame_complete E ev : full_frame E ev -> complete_frame ev.
Proof. destruct ev; simpl; tauto. Qed.

Lemma full_frame_to_universe E ev : full_frame E ev -> to_universe E ev.
Proof. destruct ev; simpl; tauto. Qed.

Lemma loop_forever_started E cycles s0 :
  (_setup;; _start E) initial = Ok tt s0 ->
  started E s0 /\ started E (state_of (_loop_forever E cycles s0)).
Proof.
  intros Hstart. destruct (start_sound E) as [Htr Hst].
  rewrite Hstart in Htr. simpl in Htr. specialize (Hst s0 Hstart).
  split; [exact Hst|].
  apply (keeps_sound_loop_forever E cycles s0). split; assumption.
Qed.

Lemma lab_starts : (_setup;; _start lab) initial = Ok tt lab_started.
Proof. vm_compute. reflexivity. Qed.

(** C5.  In every run, every frame handed to the transmitter (the blank
    frame of the start, the frames sent on change and as heartbeat, the
    blank frames of the shutdown) has 512 entries, however many channels the
    input section configures; and once [_start] has returned, the frame
    global has 512 entries after any number of cycles and at the end of the
    run. *)
Theorem frame_always_complete (E : env) (cycles : list cycle) :
  Forall complete_frame (trace (snd (main E cycles)))
  /\ (forall s0, (_setup;; _start E) initial = Ok tt s0 ->
      length (dmxframe s0) = 512%nat
      /\ length (dmxframe (state_of (_loop_forever E cycles s0))) = 512%nat
      /\ length (dmxframe (snd (main E cycles))) = 512%nat).
Proof.
  destruct (main_sound E cycles) as [Htr Hst]. split.
  - eapply Forall_impl; [exact Htr | apply full_frame_complete].
  - intros s0 Hstart.
    destruct (loop_forever_started E cycles s0 Hstart) as [(_ & _ & L0) (_ & _ & L1)].
    destruct (Hst s0 Hstart) as (_ & _ & L2). auto.
Qed.

Lemma frame_always_complete_witness :
  (_setup;; _start lab) initial = Ok tt lab_started
  /\ length (dmxframe lab_started) = 512%nat
  /\ length (dmxframe (snd (main lab [only_first 1; interrupted]))) = 512%nat.
Proof.
  destruct (frame_always_complete lab [only_first 1; interrupted]) as [_ H].
  destruct (H lab_started lab_starts) as (L0 & _ & L2).
  split; [exact lab_starts|]. split; assumption.
Defined.

(** C10.  In every run, every broadcast is addressed to net 0, sub-net 0
    and the universe number of the configuration; and once [_start] has
    returned, the address global holds exactly that triple after any number
    of cycles and at the end of the run. *)
Theorem address_is_fixed (E : env) (cycles : list cycle) :
  Forall (to_universe E) (trace (snd (main E cycles)))
  /\ (forall s0, (_setup;; _start E) initial = Ok tt s0 ->
      address s0 = [0; 0; universe E]
      /\ address (state_of (_loop_forever E cycles s0)) = [0; 0; universe E]
      /\ address (snd (main E cycles)) = [0; 0; universe E]).
Proof.
  destruct (main_sound E cycles) as [Htr Hst]. split.
  - eapply Forall_impl; [exact Htr | apply full_frame_to_universe].
  - intros s0 Hstart.
    destruct (loop_forever_started E cycles s0 Hstart) as [(A0 & _) (A1 & _)].
    destruct (Hst s0 Hstart) as (A2 & _). auto.
Qed.

Lemma address_is_fixed_witness :
  (_setup;; _start lab) initial = Ok tt lab_started
  /\ address lab_started = [0; 0; 1]
  /\ address (snd (main lab [only_first 1; interrupted])) = [0; 0; 1].
Proof.
  destruct (address_is_fixed lab [only_first 1; interrupted]) as [_ H].
  destruct (H lab_started lab_starts) as (A0 & _ & A2).
  split; [exact lab_starts|]. split; assumption.
Defined.

(** ** Absent channels *)

(** C6.  A channel that is absent from the value source in a cycle keeps its
    frame entry through that cycle, whether the cycle returns or raises and
    whatever the other channels do; and when it is absent in each of a
    sequence of cycles, its entry after any number of them is the entry it
    had before the first. *)
Theorem absent_channel_keeps_level (E : env) (i : nat) (cycles : list cycle) (s : state) :
  Forall (fun c => input c (chanstr_of i) = None) cycles ->
  (forall c s', c ∈ cycles ->
     dmxframe (state_of (_loop_once E c s')) !! i = dmxframe s' !! i)
  /\ (forall n,
       dmxframe (state_of (_loop_forever E (take n cycles) s)) !! i = dmxframe s !! i).
Proof.
  intros Habs. split.
  - intros c s' Hc. apply keeps_level_loop_once.
    rewrite Forall_forall in Habs. apply Habs, Hc.
  - intros n. apply keeps_level_loop_forever. apply Forall_take, Habs.
Qed.

Lemma absent_channel_keeps_level_witness :
  Forall (fun c => input c (chanstr_of 4) = None) flicker
  /\ dmxframe lab_fifth_half !! 4%nat = Some 127
  /\ dmxframe (state_of (_loop_forever lab flicker lab_fifth_half)) !! 4%nat = Some 127.
Proof.
  assert (Habs : Forall (fun c => input c (chanstr_of 4) = None) flicker).
  { repeat (constructor; [vm_compute; reflexivity|]). constructor. }
  assert (H0 : dmxframe lab_fifth_half !! 4%nat = Some 127) by (vm_compute; reflexivity).
  split; [exact Habs|]. split; [exact H0|].
  destruct (absent_channel_keeps_level lab 4 flicker lab_fifth_half Habs) as [_ H].
  specialize (H 10%nat). change (take 10 flicker) with flicker in H.
  rewrite H. exact H0.
Defined.

(** ** The shutdown sequence *)

Lemma blank_and_wait_eq E frame s :
  send_outcome E (sends s) = None ->
  blank_and_wait E frame s =
    Ok tt (log (EvSleep (1 # 10)) (count_send (log (EvBroadcast frame (address s)) s))).
Proof.
  intros H. unfold blank_and_wait, broadcastDMX. run. rewrite H.
  apply sleep_returns. discriminate.
Qed.

Lemma stop_returns E s :
  (forall k, (k < 6)%nat -> send_outcome E (sends s + k) = None) ->
  exists s1, _stop E s = Ok tt s1
             /\ trace s1 = trace s ++ shutdown_events (address s)
             /\ dmxframe s1 = dmxframe s.
Proof.
  intros H.
  assert (H0 : send_outcome E (sends s) = None).
  { rewrite <- (Nat.add_0_r (sends s)). apply H. lia. }
  assert (H1 : send_outcome E (S (sends s)) = None).
  { replace (S (sends s)) with (sends s + 1)%nat by lia. apply H. lia. }
  assert (H2 : send_outcome E (S (S (sends s))) = None).
  { replace (S (S (sends s))) with (sends s + 2)%nat by lia. apply H. lia. }
  assert (H3 : send_outcome E (S (S (S (sends s)))) = None).
  { replace (S (S (S (sends s)))) with (sends s + 3)%nat by lia. apply H. lia. }
  assert (H4 : send_outcome E (S (S (S (S (sends s))))) = None).
  { replace (S (S (S (S (sends s))))) with (sends s + 4)%nat by lia. apply H. lia. }
  assert (H5 : send_outcome E (S (S (S (S (S (sends s)))))) = None).
  { replace (S (S (S (S (S (sends s)))))) with (sends s + 5)%nat by lia. apply H. lia. }
  unfold _stop. cbv zeta. unfold mbind at 1, M_bind at 1. unfold emit at 1, modify at 1.
  repeat (unfold mbind at 1, M_bind at 1; rewrite blank_and_wait_eq by assumption).
  run. eexists. split; [reflexivity|]. simpl. split; [|reflexivity].
  rewrite <- !app_assoc. reflexivity.
Qed.

(** C7.  Whatever the frame holds when the module stops, and as long as the
    six sends of the shutdown return, [_stop] returns after this sequence
    and nothing else: the stop message, six times a broadcast of a 512-entry
    frame of zeros followed by a pause of 0.1, then the closing of the
    endpoint and the final message.  The broadcasts are at least five, each
    carries only zeros, and all of them precede the close.  A run whose loop
    was ended by one of the handled exceptions ends with this sequence and
    exits. *)
Theorem shutdown_blanks_six_times (E : env) (s : state) :
  (forall k, (k < 6)%nat -> send_outcome E (sends s + k) = None) ->
  exists s1,
    _stop E s = Ok tt s1
    /\ trace s1 = trace s ++ shutdown_events (address s)
    /\ (5 <= length (List.filter is_broadcast (shutdown_events (address s))))%nat
    /\ (forall frame addr, In (EvBroadcast frame addr) (shutdown_events (address s)) ->
        length frame = 512%nat /\ Forall (fun level => level = 0) frame)
    /\ (exists sends_and_pauses,
          shutdown_events (address s) =
            EvSuccess "Stopping module..." :: sends_and_pauses
              ++ [EvClose; EvSuccess "Done."]
          /\ Forall (fun ev => ev = EvBroadcast (replicate 512 0) (address s)
                               \/ ev = EvSleep (1 # 10)) sends_and_pauses)
    /\ (forall cycles s0 e,
          (_setup;; _start E) initial = Ok tt s0 ->
          _loop_forever E cycles s0 = Raise e s -> handled e = true ->
          main E cycles = (Exited, s1)).
Proof.
  intros H. destruct (stop_returns E s H) as (s1 & Hstop & Htr & _).
  exists s1. split; [exact Hstop|]. split; [exact Htr|]. split; [|split; [|split]].
  - simpl. lia.
  - intros frame addr Hin. unfold shutdown_events in Hin. cbv zeta in Hin.
    assert (Hz : frame = replicate 512 0).
    { simpl in Hin.
      repeat (destruct Hin as [Hin|Hin]; [congruence|]). destruct Hin. }
    subst frame. split; [apply length_replicate|].
    apply Forall_forall. intros level Hl. apply elem_of_replicate in Hl. tauto.
  - exists (concat (replicate 6 [EvBroadcast (replicate 512 0) (address s);
                                   EvSleep (1 # 10)])).
    split; [reflexivity|]. unfold concat. cbn [replicate app].
    repeat (constructor; [auto|]). constructor.
  - intros cycles s0 e Hstart Hloop Hh. unfold main.
    rewrite Hstart, Hloop, Hh, Hstop. reflexivity.
Qed.

Lemma shutdown_blanks_six_times_witness :
  (forall k, (k < 6)%nat -> send_outcome lab (sends lab_interrupted + k) = None)
  /\ exists s1,
       _stop lab lab_interrupted = Ok tt s1
       /\ trace s1 = trace lab_interrupted ++ shutdown_events [0; 0; 1]
       /\ main lab [only_first 1; interrupted] = (Exited, s1).
Proof.
  assert (H : forall k, (k < 6)%nat -> send_outcome lab (sends lab_interrupted + k) = None)
    by (intros k _; reflexivity).
  split; [exact H|].
  destruct (shutdown_blanks_six_times lab lab_interrupted H)
    as (s1 & Hstop & Htr & _ & _ & _ & Hmain).
  exists s1. split; [exact Hstop|]. split.
  - rewrite Htr. f_equal.
  - apply (Hmain _ lab_started KeyboardInterrupt).
    + exact lab_starts.
    + vm_compute. reflexivity.
    + reflexivity.
Defined.

(** ** Histories only grow *)

Lemma grows_refl s : grows s s.
Proof. exists []. rewrite app_nil_r. reflexivity. Qed.

Lemma grows_trans s1 s2 s3 : grows s1 s2 -> grows s2 s3 -> grows s1 s3.
Proof.
  intros [l1 H1] [l2 H2]. exists (l1 ++ l2). rewrite H2, H1, app_assoc. reflexivity.
Qed.

Lemma grows_quiet s s' : trace s' = trace s -> grows s s'.
Proof. intros H. exists []. rewrite app_nil_r. exact H. Qed.

Lemma keeps_grows_time E : keeps grows (time E).
Proof. intros s. apply grows_quiet. reflexivity. Qed.

Lemma keeps_grows_broadcast E frame addr : keeps grows (broadcastDMX E frame addr).
Proof.
  intros s. exists [EvBroadcast frame addr]. unfold broadcastDMX.
  destruct (send_outcome E (sends s)); reflexivity.
Qed.

Ltac keep_grows :=
  repeat match goal with
    | |- keeps _ (mbind _ _) => apply keeps_bind; [apply grows_trans | | intros ?]
    | |- keeps _ (get _) => apply keeps_get; apply grows_refl
    | |- keeps _ (mret _) => apply keeps_ret; apply grows_refl
    | |- keeps _ (raise _) => apply keeps_raise; apply grows_refl
    | |- keeps _ (broadcastDMX _ _ _) => apply keeps_grows_broadcast
    | |- keeps _ (time _) => apply keeps_grows_time
    | |- keeps _ (emit _) => apply keeps_modify; intros ?; eexists; reflexivity
    | |- keeps _ (sleep _) => apply keeps_sleep; intros ?; eexists; reflexivity
    | |- keeps _ (modify _) => apply keeps_modify; intros ?; apply grows_quiet; reflexivity
    end.

Lemma keeps_grows_loop_body c j : keeps grows (loop_body c j).
Proof.
  intros s. rewrite loop_body_eq.
  destruct (new_level c j) as [v|]; [|apply grows_refl].
  destruct (dmxframe s !! j) as [stored|]; [|apply grows_refl].
  destruct (decide (stored = v)); [apply grows_refl|].
  exists [EvChannel j v]. reflexivity.
Qed.

Lemma keeps_grows_send_and_stamp E : keeps grows (send_and_stamp E).
Proof. unfold send_and_stamp. keep_grows. Qed.

Lemma keeps_grows_maybe_send E : keeps grows (maybe_send E).
Proof.
  unfold maybe_send.
  apply keeps_bind; [apply grows_trans | keep_grows | intros dirty].
  destruct dirty; [apply keeps_grows_send_and_stamp|]. keep_grows.
  destruct (Qlt_le_dec _ _); [apply keeps_grows_send_and_stamp | keep_grows].
Qed.

Lemma keeps_grows_loop_once E c : keeps grows (_loop_once E c).
Proof.
  unfold _loop_once, scan_channels. keep_grows.
  - apply keeps_for_each; [apply grows_refl | apply grows_trans |].
    intros j. apply keeps_grows_loop_body.
  - apply keeps_grows_maybe_send.
Qed.

Lemma keeps_grows_loop_forever E cycles : keeps grows (_loop_forever E cycles).
Proof.
  induction cycles as [|c cycles IH]; simpl; keep_grows.
  - apply keeps_grows_loop_once.
  - destruct (signal c); keep_grows.
  - exact IH.
Qed.

Lemma keeps_grows_stop E : keeps grows (_stop E).
Proof. unfold _stop, blank_and_wait. cbv zeta. keep_grows. Qed.

Lemma main_grows E cycles s0 :
  (_setup;; _start E) initial = Ok tt s0 -> grows s0 (snd (main E cycles)).
Proof.
  intros Hstart. unfold main. rewrite Hstart.
  pose proof (keeps_grows_loop_forever E cycles s0) as G1.
  destruct (_loop_forever E cycles s0) as [[] s1|e s1]; simpl in *; [exact G1|].
  destruct (handled e); simpl; [|exact G1].
  pose proof (keeps_grows_stop E s1) as G2.
  destruct (_stop E s1) as [[] s2|e2 s2]; simpl in *; eapply grows_trans; eauto.
Qed.

(** C9.  When the input section is not empty and the first send returns,
    [_start] returns having done exactly this: announced the size 512,
    broadcast one frame of 512 zeros to net 0, sub-net 0 and the configured
    universe, and set the time stamp to the clock reading taken right after;
    the frame global holds the 512 zeros.  Every run begins with this
    history, whatever the cycles bring (no cycle event precedes it). *)
Theorem start_blanks_the_universe (E : env) :
  input_items E <> [] -> send_outcome E 0 = None ->
  exists s0,
    (_setup;; _start E) initial = Ok tt s0
    /\ trace s0 = [EvSize 512;
                   EvBroadcast (replicate 512 0) [0; 0; universe E];
                   EvPrint "LOCALS: debug, chanlist, chanvals, chanindx, chanstr"]
    /\ prevtime s0 = clock E 0
    /\ dmxframe s0 = replicate 512 0
    /\ address s0 = [0; 0; universe E]
    /\ forall cycles, exists later, trace (snd (main E cycles)) = trace s0 ++ later.
Proof.
  intros Hitems Hsend. pose proof (start_eq E) as Heq.
  destruct (input_items E) as [|item items]; [congruence|].
  rewrite Hsend in Heq. cbv zeta in Heq.
  eexists. split; [exact Heq|]. repeat (split; [reflexivity|]).
  intros cycles. apply (main_grows E cycles _ Heq).
Qed.

Lemma start_blanks_the_universe_witness :
  input_items lab <> [] /\ send_outcome lab 0 = None
  /\ exists s0,
       (_setup;; _start lab) initial = Ok tt s0
       /\ prevtime s0 = clock lab 0
       /\ dmxframe s0 = replicate 512 0.
Proof.
  assert (Hitems : input_items lab <> []) by discriminate.
  assert (Hsend : send_outcome lab 0 = None) by reflexivity.
  split; [exact Hitems|]. split; [exact Hsend|].
  destruct (start_blanks_the_universe lab Hitems Hsend) as (s0 & H0 & _ & Ht & Hf & _).
  exists s0. auto.
Defined.

(** ** Failing sends *)

Lemma loop_forever_cons E c later s :
  _loop_forever E (c :: later) s =
    match _loop_once E c (log EvMonitorLoop s) with
    | Raise e s' => Raise e s'
    | Ok _ s' =>
        if Qlt_le_dec (delay c) 0
        then Raise ValueError (log (EvSleep (delay c)) s')
        else match signal c with
             | Some e => Raise e (log (EvSleep (delay c)) s')
             | None => _loop_forever E later (log (EvSleep (delay c)) s')
             end
    end.
Proof.
  simpl. unfold sleep. run.
  destruct (_loop_once E c (log EvMonitorLoop s)) as [[] s'|e s']; [|reflexivity].
  destruct (Qlt_le_dec (delay c) 0); [reflexivity|].
  destruct (signal c); reflexivity.
Qed.

(** A negative delay ends the run at the sleep of its cycle: the ValueError
    is not one of the handled classes. *)
Example negative_delay_ends_the_run :
  fst (main lab [backwards; only_first 1]) = Uncaught ValueError.
Proof. vm_compute. reflexivity. Qed.

Lemma loop_forever_app E before later s s' :
  _loop_forever E before s = Ok tt s' ->
  _loop_forever E (before ++ later) s = _loop_forever E later s'.
Proof.
  revert s. induction before as [|c before IH]; intros s H.
  - simpl in H. injection H as <-. reflexivity.
  - rewrite <- app_comm_cons, loop_forever_cons. rewrite loop_forever_cons in H.
    destruct (_loop_once E c (log EvMonitorLoop s)) as [[] s1|e s1]; [|discriminate].
    destruct (Qlt_le_dec (delay c) 0); [discriminate|].
    destruct (signal c); [discriminate|]. apply IH, H.
Qed.

(** C8, as stated, fails: in [unplugged] the start succeeds and no signal
    arrives, yet the send of the first cycle raises OSError, which nothing
    catches; the second cycle never runs and the process ends. *)
Lemma failed_send_is_not_recovered : ~ send_failure_is_recoverable.
Proof.
  intros H.
  specialize (H unplugged [only_first 1; only_first 0]).
  assert (Hout : fst (main unplugged [only_first 1; only_first 0]) = Uncaught OSError)
    by (vm_compute; reflexivity).
  rewrite Hout in H.
  assert (Hfalse : Uncaught OSError = Running).
  { apply H.
    - discriminate.
    - reflexivity.
    - repeat constructor. }
  discriminate Hfalse.
Qed.

(** C8, amended.  A send that raises inside a cycle is not caught inside the
    loop: the exception leaves [_loop_once] and [_loop_forever] at that
    cycle and no later cycle runs, so the loop does not go on.  When the
    exception is one of SystemExit, KeyboardInterrupt and RuntimeError, the
    handler runs [_stop], and the process exits through [sys.exit()] if
    [_stop] returns and ends with the exception of [_stop] if that raises;
    for any other exception the process ends with it uncaught, without
    shutdown. *)
Theorem failed_send_ends_the_run
    (E : env) (before : list cycle) (c : cycle) (later : list cycle)
    (s0 s s1 : state) (e : exn) :
  (_setup;; _start E) initial = Ok tt s0 ->
  _loop_forever E before s0 = Ok tt s ->
  scan_channels c (log EvMonitorLoop s) = Ok tt s1 ->
  update s1 = true \/ overdue E s1 ->
  send_outcome E (sends s1) = Some e ->
  exists s2,
    _loop_once E c (log EvMonitorLoop s) = Raise e s2
    /\ _loop_forever E (before ++ c :: later) s0 = Raise e s2
    /\ main E (before ++ c :: later) =
         (if handled e
          then match _stop E s2 with
               | Ok _ s3 => (Exited, s3)
               | Raise e' s3 => (Uncaught e', s3)
               end
          else (Uncaught e, s2))
    /\ main E (before ++ c :: later) = main E (before ++ [c])
    /\ fst (main E (before ++ c :: later)) <> Running.
Proof.
  intros Hstart Hbefore Hscan Hdue Hfail.
  assert (Hraise : exists s2, _loop_once E c (log EvMonitorLoop s) = Raise e s2).
  { rewrite (loop_once_eq E c _ s1 Hscan), maybe_send_eq.
    destruct (update s1).
    - rewrite send_and_stamp_eq. cbv zeta. rewrite Hfail. eexists. reflexivity.
    - destruct Hdue as [Hup|Hover]; [discriminate|].
      destruct (Qlt_le_dec _ _) as [_|Hle].
      2: { exfalso. apply (Qlt_not_le _ _ Hover Hle). }
      rewrite send_and_stamp_eq. cbv zeta. simpl sends. rewrite Hfail.
      eexists. reflexivity. }
  destruct Hraise as (s2 & Hraise). exists s2.
  assert (Hloop : forall rest, _loop_forever E (before ++ c :: rest) s0 = Raise e s2).
  { intros rest. rewrite (loop_forever_app E before (c :: rest) s0 s Hbefore).
    rewrite loop_forever_cons, Hraise. reflexivity. }
  assert (Hmain : forall rest,
             main E (before ++ c :: rest) =
               (if handled e
                then match _stop E s2 with
                     | Ok _ s3 => (Exited, s3)
                     | Raise e' s3 => (Uncaught e', s3)
                     end
                else (Uncaught e, s2))).
  { intros rest. unfold main. rewrite Hstart, Hloop. reflexivity. }
  split; [exact Hraise|]. split; [apply Hloop|]. split; [apply Hmain|].
  split; [rewrite (Hmain later), (Hmain []); reflexivity|].
  rewrite Hmain. destruct (handled e); [|discriminate].
  destruct (_stop E s2); discriminate.
Qed.

Lemma failed_send_ends_the_run_witness :
  update unplugged_scanned = true
  /\ send_outcome unplugged (sends unplugged_scanned) = Some OSError
  /\ main unplugged ([] ++ only_first 1 :: [only_first 0])
     = main unplugged ([] ++ [only_first 1])
  /\ fst (main unplugged ([] ++ only_first 1 :: [only_first 0])) = Uncaught OSError.
Proof.
  assert (Hstart : (_setup;; _start unplugged) initial = Ok tt unplugged_started)
    by (vm_compute; reflexivity).
  assert (Hscan : scan_channels (only_first 1) (log EvMonitorLoop unplugged_started)
                  = Ok tt unplugged_scanned) by (vm_compute; reflexivity).
  assert (Hup : update unplugged_scanned = true) by (vm_compute; reflexivity).
  assert (Hfail : send_outcome unplugged (sends unplugged_scanned) = Some OSError)
    by (vm_compute; reflexivity).
  split; [exact Hup|]. split; [exact Hfail|].
  destruct (failed_send_ends_the_run unplugged [] (only_first 1) [only_first 0]
              unplugged_started unplugged_started unplugged_scanned OSError
              Hstart eq_refl Hscan (or_introl Hup) Hfail)
    as (s2 & _ & _ & Hmain & Hsame & _).
  split; [exact Hsame|]. rewrite Hmain. reflexivity.
Defined.

(** * Further properties of the module *)

(** ** Start-up failures *)

(** X1.  With an empty input section [_start] fails on the unpacking of the
    channel list: the run ends with an uncaught ValueError before anything
    was announced or broadcast, and no cycle and no shutdown runs. *)
Theorem empty_input_section_aborts_start (E : env) (cycles : list cycle) :
  input_items E = [] ->
  fst (main E cycles) = Uncaught ValueError
  /\ trace (snd (main E cycles)) = [].
Proof.
  intros Hitems. unfold main. rewrite start_eq, Hitems. split; reflexivity.
Qed.

Lemma empty_input_section_aborts_start_witness :
  input_items no_inputs = []
  /\ fst (main no_inputs flicker) = Uncaught ValueError
  /\ trace (snd (main no_inputs flicker)) = [].
Proof.
  split; [reflexivity|].
  exact (empty_input_section_aborts_start no_inputs flicker eq_refl).
Defined.

(** X2.  An exception raised by the blanking send of [_start] is outside the
    [try] of the main block: whatever its class, also one the handler names,
    the run ends with it uncaught, right after that send; no cycle runs and
    the shutdown sequence is not performed. *)
Theorem failed_start_send_is_never_handled (E : env) (cycles : list cycle) (e : exn) :
  input_items E <> [] -> send_outcome E 0 = Some e ->
  fst (main E cycles) = Uncaught e
  /\ trace (snd (main E cycles))
     = [EvSize 512; EvBroadcast (replicate 512 0) [0; 0; universe E]].
Proof.
  intros Hitems Hsend. unfold main. rewrite start_eq.
  destruct (input_items E) as [|item items]; [congruence|].
  rewrite Hsend. cbv zeta. split; reflexivity.
Qed.

Lemma failed_start_send_is_never_handled_witness :
  input_items dead_network <> [] /\ send_outcome dead_network 0 = Some RuntimeError
  /\ handled RuntimeError = true
  /\ fst (main dead_network [interrupted]) = Uncaught RuntimeError.
Proof.
  assert (Hitems : input_items dead_network <> []) by discriminate.
  split; [exact Hitems|]. split; [reflexivity|]. split; [reflexivity|].
  exact (proj1 (failed_start_send_is_never_handled dead_network [interrupted]
                  RuntimeError Hitems eq_refl)).
Defined.

(** ** The size loop of the start *)

Lemma size_loop_scan (chanlist : list string) :
  forall n a size,
    let step := fun size chanindx =>
      if bool_decide (chanstr_of chanindx ∈ chanlist) then (chanindx + 1)%nat else size in
    let r := fold_left step (seq a n) size in
    (r = size /\ forall i, (a <= i < a + n)%nat -> chanstr_of i ∉ chanlist)
    \/ (exists i, (a <= i < a + n)%nat /\ r = (i + 1)%nat /\ chanstr_of i ∈ chanlist
                  /\ forall j, (i < j < a + n)%nat -> chanstr_of j ∉ chanlist).
Proof.
  induction n as [|n IH]; intros a size step r.
  - left. split; [reflexivity|]. intros i Hi. lia.
  - subst r. simpl seq. simpl fold_left.
    assert (Hstep : step size a
                    = if bool_decide (chanstr_of a ∈ chanlist) then (a + 1)%nat else size)
      by reflexivity.
    destruct (IH (S a) (step size a)) as [[Hr Hnone]|(i & Hi & Hr & Hin & Hafter)].
    + fold step in Hr. rewrite Hr, Hstep.
      destruct (decide (chanstr_of a ∈ chanlist)) as [Ha|Ha].
      * rewrite bool_decide_eq_true_2 by exact Ha.
        right. exists a. split; [lia|]. split; [reflexivity|]. split; [exact Ha|].
        intros j Hj. apply Hnone. lia.
      * rewrite bool_decide_eq_false_2 by exact Ha.
        left. split; [reflexivity|]. intros i Hi.
        destruct (decide (i = a)) as [->|Hne]; [exact Ha|]. apply Hnone. lia.
    + right. exists i. split; [lia|]. split; [exact Hr|]. split; [exact Hin|].
      intros j Hj. apply Hafter. lia.
Qed.

(** X3.  The size loop of [_start] finds the highest configured channel:
    its result is at most 512; it is 0 exactly when none of the 512 channel
    names is an option of the input section; and when it is [n + 1], the
    name of channel index [n] is configured and no higher one is. *)
Theorem size_loop_finds_last_channel (chanlist : list string) :
  (last_configured chanlist <= 512)%nat
  /\ (last_configured chanlist = 0%nat <->
      forall i, (i < 512)%nat -> chanstr_of i ∉ chanlist)
  /\ (forall n, last_configured chanlist = S n ->
        (n < 512)%nat /\ chanstr_of n ∈ chanlist
        /\ forall j, (n < j < 512)%nat -> chanstr_of j ∉ chanlist).
Proof.
  unfold last_configured.
  destruct (size_loop_scan chanlist 512 0 0) as [[Hr Hnone]|(i & Hi & Hr & Hin & Hafter)];
    cbv zeta in *.
  - rewrite Hr. split; [lia|]. split.
    + split; [|reflexivity]. intros _ i Hi. apply Hnone. lia.
    + intros n Hn. discriminate.
  - rewrite Hr. split; [lia|]. split.
    + split; [lia|]. intros Hnone. exfalso. apply (Hnone i); [lia | exact Hin].
    + intros n Hn. assert (n = i) by lia. subst n. split; [lia|]. split; [exact Hin|].
      intros j Hj. apply Hafter. lia.
Qed.

Lemma size_loop_finds_last_channel_witness :
  last_configured ["channel001"; "channel007"; "gain"]%string = 7%nat
  /\ (6 < 512)%nat
  /\ chanstr_of 6 ∈ ["channel001"; "channel007"; "gain"]%string.
Proof.
  assert (H : last_configured ["channel001"; "channel007"; "gain"]%string = 7%nat)
    by (vm_compute; reflexivity).
  split; [exact H|].
  destruct (size_loop_finds_last_channel ["channel001"; "channel007"; "gain"]%string)
    as (_ & _ & Hlast).
  destruct (Hlast 6%nat H) as (Hlt & Hin & _). split; assumption.
Defined.

(** ** Channel names *)

(** The three digits of a channel name read back as the channel number. *)
Lemma chanstr_of_reads_back i :
  (i < 512)%nat ->
  option_map Nat.of_uint (NilZero.uint_of_string (String.substring 7 3 (chanstr_of i)))
  = Some (i + 1)%nat.
Proof.
  intros Hi.
  assert (Hall : forallb
            (fun i => match option_map Nat.of_uint
                              (NilZero.uint_of_string (String.substring 7 3 (chanstr_of i)))
                      with
                      | Some n => Nat.eqb n (i + 1)
                      | None => false
                      end) (seq 0 512) = true) by (vm_compute; reflexivity).
  rewrite forallb_forall in Hall. specialize (Hall i).
  destruct (option_map _ _) as [n|].
  - f_equal. apply Nat.eqb_eq. apply Hall. apply in_seq. lia.
  - discriminate Hall. apply in_seq. lia.
Qed.

(** X4.  The 512 channel indices of the frame read 512 different keys:
    ["channel%03d" % (chanindx + 1)] is one-to-one on them. *)
Theorem channel_names_are_distinct (i j : nat) :
  (i < 512)%nat -> (j < 512)%nat -> chanstr_of i = chanstr_of j -> i = j.
Proof.
  intros Hi Hj Heq.
  pose proof (chanstr_of_reads_back i Hi) as Ri.
  pose proof (chanstr_of_reads_back j Hj) as Rj.
  rewrite Heq, Rj in Ri. injection Ri as Ri. lia.
Qed.

Lemma channel_names_are_distinct_witness :
  (4 < 512)%nat /\ chanstr_of 4 = "channel005"%string /\ 4%nat = 4%nat.
Proof.
  assert (H4 : (4 < 512)%nat) by lia.
  split; [exact H4|]. split; [vm_compute; reflexivity|].
  exact (channel_names_are_distinct 4 4 H4 H4 eq_refl).
Defined.

(** X5.  A value under one channel's key drives that channel only: in a
    cycle in which every key but the one of index [k] is absent, whatever
    the cycle does otherwise, every other entry of the frame is left as it
    was. *)
Theorem one_key_moves_one_channel (E : env) (c : cycle) (s : state) (k j : nat) :
  (k < 512)%nat -> (j < 512)%nat -> j <> k ->
  (forall key, key <> chanstr_of k -> input c key = None) ->
  dmxframe (state_of (_loop_once E c s)) !! j = dmxframe s !! j.
Proof.
  intros Hk Hj Hjk Honly. apply keeps_level_loop_once. apply Honly.
  intros Heq. apply Hjk.
  pose proof (chanstr_of_reads_back j Hj) as Rj.
  pose proof (chanstr_of_reads_back k Hk) as Rk.
  rewrite Heq, Rk in Rj. injection Rj as Rj. lia.
Qed.

Lemma one_key_moves_one_channel_witness :
  (forall key, key <> chanstr_of 4 -> input (single "channel005" (1 # 2)) key = None)
  /\ dmxframe lab_fifth_half !! 4%nat = Some 127
  /\ dmxframe lab_fifth_half !! 0%nat = dmxframe lab_started !! 0%nat.
Proof.
  assert (Honly : forall key, key <> chanstr_of 4 ->
                              input (single "channel005" (1 # 2)) key = None).
  { intros key Hne. change (chanstr_of 4) with "channel005"%string in Hne.
    unfold single, input. destruct (decide (key = "channel005"%string)); [contradiction|].
    reflexivity. }
  split; [exact Honly|]. split; [vm_compute; reflexivity|].
  apply (one_key_moves_one_channel lab (single "channel005" (1 # 2)) lab_started 4 0);
    [lia | lia | lia | exact Honly].
Defined.

(** ** Scanning again *)

Lemma existsb_never {A} (l : list A) : existsb (fun _ => false) l = false.
Proof. induction l; simpl; auto. Qed.

Lemma concat_map_nothing {A B} (l : list A) : concat (map (fun _ => @nil B) l) = [].
Proof. induction l; simpl; auto. Qed.

(** After a scan, every scanned index with a present value holds the level
    the cycle computes for it. *)
Lemma scanned_is_settled c l s s1 j :
  scan_post c l s s1 -> j ∈ l ->
  changedb (dmxframe s1) c j = false
  /\ notes (dmxframe s1) c j = []
  /\ scanned (dmxframe s1) c j = dmxframe s1 !! j.
Proof.
  intros P Hj. pose proof (sp_frame _ _ _ _ P j) as Hf.
  rewrite bool_decide_eq_true_2 in Hf by exact Hj.
  unfold notes, changedb, scanned in *. destruct (new_level c j) as [v|].
  - rewrite Hf, bool_decide_eq_true_2 by reflexivity. simpl. auto.
  - auto.
Qed.

(** X6.  Scanning is idempotent: a second scan with the same values,
    scales and offsets finds nothing to do.  It does not set the dirty
    flag, emits no notification and leaves the frame as the first scan left
    it. *)
Theorem second_scan_is_idle (c : cycle) (s : state) :
  length (dmxframe s) = dmxsize s ->
  exists s1 s2,
    scan_channels c s = Ok tt s1
    /\ scan_channels c s1 = Ok tt s2
    /\ update s2 = false
    /\ trace s2 = trace s1
    /\ dmxframe s2 = dmxframe s1.
Proof.
  intros Hlen. destruct (scan_channels_post c s Hlen) as (s1 & Hscan1 & P1).
  assert (Hlen1 : length (dmxframe s1) = dmxsize s1).
  { rewrite (sp_length _ _ _ _ P1), (sp_dmxsize _ _ _ _ P1). exact Hlen. }
  assert (Hsize : dmxsize s1 = dmxsize s) by apply (sp_dmxsize _ _ _ _ P1).
  destruct (scan_channels_post c s1 Hlen1) as (s2 & Hscan2 & P2).
  rewrite Hsize in P2.
  exists s1, s2. split; [exact Hscan1|]. split; [exact Hscan2|].
  pose proof (sp_update _ _ _ _ P2) as Hup.
  pose proof (sp_trace _ _ _ _ P2) as Htr.
  pose proof (sp_frame _ _ _ _ P2) as Hfr.
  simpl in Hup, Htr, Hfr. split; [|split].
  - rewrite Hup. rewrite (existsb_agree _ (fun _ => false)); [apply existsb_never|].
    intros j Hj. apply (scanned_is_settled c _ _ s1 j P1 Hj).
  - rewrite Htr. rewrite (concat_map_agree _ (fun _ => [])).
    + rewrite concat_map_nothing, app_nil_r. reflexivity.
    + intros j Hj. apply (scanned_is_settled c _ _ s1 j P1 Hj).
  - apply list_eq. intros j. rewrite Hfr. case_bool_decide as Hj; [|reflexivity].
    apply (scanned_is_settled c _ _ s1 j P1 Hj).
Qed.

Lemma second_scan_is_idle_witness :
  length (dmxframe lab_started) = dmxsize lab_started
  /\ exists s1 s2,
       scan_channels (only_first 1) lab_started = Ok tt s1
       /\ scan_channels (only_first 1) s1 = Ok tt s2
       /\ update s2 = false
       /\ dmxframe s2 = dmxframe s1.
Proof.
  assert (Hlen : length (dmxframe lab_started) = dmxsize lab_started)
    by (vm_compute; reflexivity).
  split; [exact Hlen|].
  destruct (second_scan_is_idle (only_first 1) lab_started Hlen)
    as (s1 & s2 & H1 & H2 & Hup & _ & Hfr).
  exists s1, s2. auto.
Defined.

(** ** Properties of every transmitted frame *)

Section FrameProperty.
Variable P : list Z -> Prop.
Variable fits : cycle -> Prop.
Hypothesis P_blank : P (replicate 512 0).
Hypothesis P_store :
  forall c j v frame, fits c -> new_level c j = Some v -> P frame -> P (<[j := v]> frame).

Lemma stays_framed_refl s : stays_framed P s s.
Proof. intros H. exact H. Qed.

Lemma stays_framed_trans s1 s2 s3 :
  stays_framed P s1 s2 -> stays_framed P s2 s3 -> stays_framed P s1 s3.
Proof. unfold stays_framed. auto. Qed.

Lemma framed_step s s' new :
  P (dmxframe s) -> P (dmxframe s') ->
  trace s' = trace s ++ new -> Forall (frames_are P) new ->
  stays_framed P s s'.
Proof.
  intros _ Hf Ht Hnew [_ T]. split; [exact Hf|].
  rewrite Ht. apply Forall_app. auto.
Qed.

Lemma framed_quiet s s' :
  dmxframe s' = dmxframe s -> trace s' = trace s -> stays_framed P s s'.
Proof. intros Hf Ht [F T]. split; [rewrite Hf | rewrite Ht]; assumption. Qed.

Lemma keeps_framed_note ev : frames_are P ev -> keeps (stays_framed P) (emit ev).
Proof.
  intros Hev s H. generalize H. destruct H as [F _].
  apply (framed_step s _ [ev]); try assumption; try reflexivity.
  constructor; [exact Hev | constructor].
Qed.

Lemma keeps_framed_broadcast E frame addr :
  P frame -> keeps (stays_framed P) (broadcastDMX E frame addr).
Proof.
  intros HP s H. generalize H. destruct H as [F _].
  apply (framed_step s _ [EvBroadcast frame addr]);
    unfold broadcastDMX; destruct (send_outcome E (sends s)); try assumption;
    try reflexivity.
  all: constructor; [exact HP | constructor].
Qed.

Ltac keep_framed :=
  repeat match goal with
    | |- keeps _ (mbind _ _) => apply keeps_bind; [apply stays_framed_trans | | intros ?]
    | |- keeps _ (get _) => apply keeps_get; apply stays_framed_refl
    | |- keeps _ (mret _) => apply keeps_ret; apply stays_framed_refl
    | |- keeps _ (raise _) => apply keeps_raise; apply stays_framed_refl
    | |- keeps _ (time _) => intros ?; apply framed_quiet; reflexivity
    | |- keeps _ (sleep ?d) =>
        apply keeps_sleep; intros s_; exact (keeps_framed_note (EvSleep d) I s_)
    | |- keeps _ (modify (set_update _)) =>
        apply keeps_modify; intros ?; apply framed_quiet; reflexivity
    | |- keeps _ (modify (set_prevtime _)) =>
        apply keeps_modify; intros ?; apply framed_quiet; reflexivity
    end.

Lemma keeps_framed_send_and_stamp E : keeps (stays_framed P) (send_and_stamp E).
Proof.
  intros s Hs. generalize Hs. revert s Hs.
  assert (H : forall frame addr, P frame ->
            keeps (stays_framed P)
              (broadcastDMX E frame addr ≫= λ _, time E ≫= λ now, modify (set_prevtime now))).
  { intros frame addr HP.
    apply keeps_bind; [apply stays_framed_trans | apply keeps_framed_broadcast, HP |
                       intros ?; keep_framed]. }
  intros s Hs. apply (H (dmxframe s) (address s)). apply Hs.
Qed.

Lemma keeps_framed_maybe_send E : keeps (stays_framed P) (maybe_send E).
Proof.
  unfold maybe_send.
  apply keeps_bind; [apply stays_framed_trans | keep_framed | intros dirty].
  destruct dirty; [apply keeps_framed_send_and_stamp|]. keep_framed.
  destruct (Qlt_le_dec _ _); [apply keeps_framed_send_and_stamp | keep_framed].
Qed.

Lemma keeps_framed_loop_body c j : fits c -> keeps (stays_framed P) (loop_body c j).
Proof.
  intros Hc s. rewrite loop_body_eq.
  destruct (new_level c j) as [v|] eqn:Hnl; [|apply stays_framed_refl].
  destruct (dmxframe s !! j) as [stored|]; [|apply stays_framed_refl].
  destruct (decide (stored = v)); [apply stays_framed_refl|]. simpl.
  intros H. generalize H. destruct H as [F _].
  apply (framed_step s _ [EvChannel j v]); try assumption; try reflexivity.
  - simpl. apply (P_store c); assumption.
  - constructor; [exact I | constructor].
Qed.

Lemma keeps_framed_loop_once E c : fits c -> keeps (stays_framed P) (_loop_once E c).
Proof.
  intros Hc. unfold _loop_once, scan_channels. keep_framed.
  - apply keeps_for_each; [apply stays_framed_refl | apply stays_framed_trans |].
    intros j. apply keeps_framed_loop_body, Hc.
  - apply keeps_framed_maybe_send.
Qed.

Lemma keeps_framed_loop_forever E cycles :
  Forall fits cycles -> keeps (stays_framed P) (_loop_forever E cycles).
Proof.
  induction 1 as [|c cycles Hc _ IH]; simpl; keep_framed.
  - apply keeps_framed_note. exact I.
  - apply keeps_framed_loop_once, Hc.
  - destruct (signal c); keep_framed.
  - exact IH.
Qed.

Lemma keeps_framed_stop E : keeps (stays_framed P) (_stop E).
Proof.
  unfold _stop, blank_and_wait. cbv zeta.
  repeat match goal with
    | |- keeps _ (mbind _ _) => apply keeps_bind; [apply stays_framed_trans | | intros ?]
    | |- keeps _ (emit _) => apply keeps_framed_note; exact I
    | |- keeps _ (sleep ?d) =>
        apply keeps_sleep; intros s_; exact (keeps_framed_note (EvSleep d) I s_)
    | |- keeps _ (get _) => apply keeps_get; apply stays_framed_refl
    | |- keeps _ (broadcastDMX _ _ _) => apply keeps_framed_broadcast, P_blank
    end.
Qed.

Lemma start_framed E : framed P (state_of ((_setup;; _start E) initial))
                       \/ input_items E = [].
Proof.
  rewrite start_eq. destruct (input_items E) as [|item items]; [right; reflexivity|].
  left. destruct (send_outcome E 0); cbv zeta; split; simpl;
    try exact P_blank; repeat (constructor; try exact P_blank).
Qed.

(** Every frame a run hands to the transmitter has property [P], when the
    blank frame has it and storing a level of a fitting cycle keeps it. *)
Lemma main_framed E cycles :
  Forall fits cycles -> Forall (frames_are P) (trace (snd (main E cycles))).
Proof.
  intros Hfits. destruct (start_framed E) as [H0|Hempty].
  2: { unfold main. rewrite start_eq, Hempty. constructor. }
  unfold main.
  destruct ((_setup;; _start E) initial) as [[] s0|e s0]; simpl in *; [|apply H0].
  pose proof (keeps_framed_loop_forever E cycles Hfits s0 H0) as H1.
  destruct (_loop_forever E cycles s0) as [[] s1|e s1]; simpl in *; [apply H1|].
  destruct (handled e); simpl; [|apply H1].
  pose proof (keeps_framed_stop E s1 H1) as H2.
  destruct (_stop E s1) as [[] s2|e2 s2]; simpl in *; apply H2.
Qed.
End FrameProperty.

Lemma new_level_is_byte c j v : new_level c j = Some v -> 0 <= v <= 255.
Proof.
  unfold new_level. destruct (input c (chanstr_of j)) as [x|]; [|discriminate].
  intros [= <-]. fold (clamped c j x).
  destruct (clamped_bounds c j x) as [Hlo Hhi].
  rewrite py_int_floor by exact Hlo. split.
  - change 0 with (Qfloor 0). apply Qfloor_resp_le, Hlo.
  - change 255 with (Qfloor 255). apply Qfloor_resp_le, Hhi.
Qed.

(** X7.  Every frame a run hands to the transmitter, at start, on change,
    as heartbeat and during shutdown, holds only levels between 0 and 255,
    whatever values, scales and offsets the cycles bring (with
    [EEGsynth.limit] clamping as the spec describes it). *)
Theorem every_transmitted_level_is_a_byte (E : env) (cycles : list cycle) :
  Forall (frames_are byte_frame) (trace (snd (main E cycles))).
Proof.
  apply (main_framed byte_frame (fun _ => True)).
  - apply Forall_replicate. lia.
  - intros c j v frame _ Hv Hframe. apply Forall_insert; [exact Hframe|].
    apply (new_level_is_byte c j v Hv).
  - apply Forall_forall. auto.
Qed.

(** X8.  A channel whose value is never present stays dark on the wire: if
    channel index [i] is absent in every cycle of a run, every frame the run
    hands to the transmitter has level 0 at [i]. *)
Theorem never_present_channel_stays_dark (E : env) (cycles : list cycle) (i : nat) :
  (i < 512)%nat ->
  Forall (fun c => input c (chanstr_of i) = None) cycles ->
  Forall (frames_are (fun frame => frame !! i = Some 0)) (trace (snd (main E cycles))).
Proof.
  intros Hi Habs.
  apply (main_framed (fun frame => frame !! i = Some 0)
                     (fun c => input c (chanstr_of i) = None)).
  - apply lookup_replicate_2. exact Hi.
  - intros c j v frame Hc Hv Hframe.
    rewrite list_lookup_insert_ne; [exact Hframe|].
    intros ->. unfold new_level in Hv. rewrite Hc in Hv. discriminate.
  - exact Habs.
Qed.

Lemma never_present_channel_stays_dark_witness :
  (4 < 512)%nat
  /\ Forall (fun c => input c (chanstr_of 4) = None) flicker
  /\ Forall (frames_are (fun frame => frame !! 4%nat = Some 0))
            (trace (snd (main lab flicker))).
Proof.
  assert (Hi : (4 < 512)%nat) by lia.
  assert (Habs : Forall (fun c => input c (chanstr_of 4) = None) flicker).
  { repeat (constructor; [vm_compute; reflexivity|]). constructor. }
  split; [exact Hi|]. split; [exact Habs|].
  exact (never_present_channel_stays_dark lab flicker 4 Hi Habs).
Defined.

(** ** Failures during the shutdown *)

Lemma blank_and_wait_raise E frame s e :
  send_outcome E (sends s) = Some e ->
  blank_and_wait E frame s = Raise e (count_send (log (EvBroadcast frame (address s)) s)).
Proof.
  intros H. unfold blank_and_wait, broadcastDMX. run. rewrite H. reflexivity.
Qed.

Ltac feed_lia H :=
  match type of H with
  | ?A -> _ => let h := fresh in assert (h : A) by lia; specialize (H h); clear h
  end.

Ltac stop_run e :=
  unfold _stop; cbv zeta;
  unfold mbind at 1, M_bind at 1; unfold emit at 1, modify at 1;
  repeat (unfold mbind at 1, M_bind at 1;
          first [ rewrite blank_and_wait_eq by assumption
                | rewrite (blank_and_wait_raise _ _ _ e) by assumption ]).

Lemma stop_aborts E s k e :
  (k < 6)%nat ->
  (forall j, (j < k)%nat -> send_outcome E (sends s + j) = None) ->
  send_outcome E (sends s + k) = Some e ->
  exists s1, _stop E s = Raise e s1
             /\ trace s1 = trace s ++ take (2 * k + 2) (shutdown_events (address s)).
Proof.
  intros Hk Hbefore Hfail.
  assert (H0 : (0 < k)%nat -> send_outcome E (sends s) = None).
  { intros H. rewrite <- (Nat.add_0_r (sends s)). apply Hbefore, H. }
  assert (H1 : (1 < k)%nat -> send_outcome E (S (sends s)) = None).
  { intros H. replace (S (sends s)) with (sends s + 1)%nat by lia. apply Hbefore, H. }
  assert (H2 : (2 < k)%nat -> send_outcome E (S (S (sends s))) = None).
  { intros H. replace (S (S (sends s))) with (sends s + 2)%nat by lia. apply Hbefore, H. }
  assert (H3 : (3 < k)%nat -> send_outcome E (S (S (S (sends s)))) = None).
  { intros H. replace (S (S (S (sends s)))) with (sends s + 3)%nat by lia.
    apply Hbefore, H. }
  assert (H4 : (4 < k)%nat -> send_outcome E (S (S (S (S (sends s))))) = None).
  { intros H. replace (S (S (S (S (sends s))))) with (sends s + 4)%nat by lia.
    apply Hbefore, H. }
  destruct k as [|[|[|[|[|[|k]]]]]]; [| | | | | | lia].
  all: rewrite Nat.add_comm in Hfail; simpl in Hfail.
  all: try feed_lia H0; try feed_lia H1; try feed_lia H2; try feed_lia H3;
       try feed_lia H4.
  all: stop_run e; eexists; (split; [reflexivity|]); simpl;
       rewrite <- ?app_assoc; reflexivity.
Qed.

Lemma stop_outcomes E s :
  (exists s1, _stop E s = Ok tt s1
              /\ trace s1 = trace s ++ shutdown_events (address s))
  \/ (exists k e s1, (k < 6)%nat /\ _stop E s = Raise e s1
                     /\ trace s1 = trace s ++ take (2 * k + 2) (shutdown_events (address s))).
Proof.
  assert (Hcase : (forall k, (k < 6)%nat -> send_outcome E (sends s + k) = None)
                  \/ exists k e, (k < 6)%nat
                       /\ (forall j, (j < k)%nat -> send_outcome E (sends s + j) = None)
                       /\ send_outcome E (sends s + k) = Some e).
  { assert (Hupto : forall n,
               (forall k, (k < n)%nat -> send_outcome E (sends s + k) = None)
               \/ exists k e, (k < n)%nat
                    /\ (forall j, (j < k)%nat -> send_outcome E (sends s + j) = None)
                    /\ send_outcome E (sends s + k) = Some e).
    { induction n as [|n [IH|(k & e & Hk & Hb & Hf)]].
      - left. intros k Hk. lia.
      - destruct (send_outcome E (sends s + n)) as [e|] eqn:Hn.
        + right. exists n, e. split; [lia|]. split; [exact IH | exact Hn].
        + left. intros k Hk. destruct (decide (k = n)) as [->|Hne]; [exact Hn|].
          apply IH. lia.
      - right. exists k, e. split; [lia|]. split; assumption. }
    apply Hupto. }
  destruct Hcase as [Hall|(k & e & Hk & Hb & Hf)].
  - left. destruct (stop_returns E s Hall) as (s1 & H1 & H2 & _). exists s1. auto.
  - right. destruct (stop_aborts E s k e Hk Hb Hf) as (s1 & H1 & H2).
    exists k, e, s1. auto.
Qed.

Lemma shutdown_prefix_has_no_close addr k :
  (k < 6)%nat -> ~ In EvClose (take (2 * k + 2) (shutdown_events addr)).
Proof.
  intros Hk. destruct k as [|[|[|[|[|[|k]]]]]]; [| | | | | | lia].
  all: simpl; intros H;
       repeat (destruct H as [H|H]; [discriminate H|]); exact H.
Qed.

(** X9.  The shutdown does not survive a failing send: when one of its six
    sends raises, [_stop] raises with it at once.  The blank frames still
    due are not sent, the endpoint is not closed, and a run that had reached
    its handler ends with the exception uncaught. *)
Theorem failed_send_aborts_shutdown (E : env) (s : state) (k : nat) (e : exn) :
  (k < 6)%nat ->
  (forall j, (j < k)%nat -> send_outcome E (sends s + j) = None) ->
  send_outcome E (sends s + k) = Some e ->
  exists s1,
    _stop E s = Raise e s1
    /\ trace s1 = trace s ++ take (2 * k + 2) (shutdown_events (address s))
    /\ length (List.filter is_broadcast (take (2 * k + 2) (shutdown_events (address s))))
       = S k
    /\ ~ In EvClose (take (2 * k + 2) (shutdown_events (address s)))
    /\ (forall cycles s0 e0,
          (_setup;; _start E) initial = Ok tt s0 ->
          _loop_forever E cycles s0 = Raise e0 s -> handled e0 = true ->
          main E cycles = (Uncaught e, s1)).
Proof.
  intros Hk Hb Hf. destruct (stop_aborts E s k e Hk Hb Hf) as (s1 & Hstop & Htr).
  exists s1. split; [exact Hstop|]. split; [exact Htr|]. split; [|split].
  - destruct k as [|[|[|[|[|[|k]]]]]]; [| | | | | | lia]; reflexivity.
  - apply shutdown_prefix_has_no_close, Hk.
  - intros cycles s0 e0 Hstart Hloop Hh. unfold main.
    rewrite Hstart, Hloop, Hh, Hstop. reflexivity.
Qed.

Lemma failed_send_aborts_shutdown_witness :
  (2 < 6)%nat
  /\ send_outcome fails_in_shutdown (sends fails_in_shutdown_interrupted + 2) = Some OSError
  /\ fst (main fails_in_shutdown [only_first 1; interrupted]) = Uncaught OSError.
Proof.
  assert (Hk : (2 < 6)%nat) by lia.
  assert (Hb : forall j, (j < 2)%nat ->
                 send_outcome fails_in_shutdown (sends fails_in_shutdown_interrupted + j)
                 = None).
  { intros j Hj. destruct j as [|[|j]]; [vm_compute; reflexivity .. | lia]. }
  assert (Hf : send_outcome fails_in_shutdown (sends fails_in_shutdown_interrupted + 2)
               = Some OSError) by (vm_compute; reflexivity).
  split; [exact Hk|]. split; [exact Hf|].
  destruct (failed_send_aborts_shutdown fails_in_shutdown fails_in_shutdown_interrupted
              2 OSError Hk Hb Hf) as (s1 & _ & _ & _ & _ & Hmain).
  assert (Hrun : main fails_in_shutdown [only_first 1; interrupted] = (Uncaught OSError, s1)).
  { apply (Hmain _ (state_of ((_setup;; _start fails_in_shutdown) initial))
             KeyboardInterrupt).
    - vm_compute. reflexivity.
    - vm_compute. reflexivity.
    - reflexivity. }
  rewrite Hrun. reflexivity.
Defined.

(** ** What the shutdown leaves alone *)

Lemma same_globals_refl s : same_globals s s.
Proof. repeat split. Qed.

Lemma same_globals_trans s1 s2 s3 :
  same_globals s1 s2 -> same_globals s2 s3 -> same_globals s1 s3.
Proof.
  intros (A1 & B1 & C1 & D1 & F1) (A2 & B2 & C2 & D2 & F2).
  repeat split; congruence.
Qed.

Lemma keeps_globals_broadcast E frame addr :
  keeps same_globals (broadcastDMX E frame addr).
Proof.
  intros s. unfold broadcastDMX. destruct (send_outcome E (sends s)); repeat split.
Qed.

(** X10.  The shutdown blanks the wire, not the module's own frame: [_stop]
    builds its zeros in a local, so the frame global still holds the last
    levels afterwards, and address, size, time stamp and dirty flag are
    untouched too, whether the shutdown completes or a send aborts it. *)
Theorem shutdown_leaves_the_globals (E : env) (s : state) :
  same_globals s (state_of (_stop E s)).
Proof.
  revert s. change (keeps same_globals (_stop E)).
  unfold _stop, blank_and_wait. cbv zeta.
  repeat match goal with
    | |- keeps _ (mbind _ _) => apply keeps_bind; [apply same_globals_trans | | intros ?]
    | |- keeps _ (emit _) => apply keeps_modify; intros ?; repeat split
    | |- keeps _ (sleep _) => apply keeps_sleep; intros ?; repeat split
    | |- keeps _ (get _) => apply keeps_get; apply same_globals_refl
    | |- keeps _ (broadcastDMX _ _ _) => apply keeps_globals_broadcast
    end.
Qed.

(** ** When the endpoint is closed *)

Lemma emits_only_refl P s : emits_only P s s.
Proof. exists []. split; [rewrite app_nil_r; reflexivity | constructor]. Qed.

Lemma emits_only_trans P s1 s2 s3 :
  emits_only P s1 s2 -> emits_only P s2 s3 -> emits_only P s1 s3.
Proof.
  intros (l1 & H1 & F1) (l2 & H2 & F2). exists (l1 ++ l2). split.
  - rewrite H2, H1, app_assoc. reflexivity.
  - apply Forall_app. auto.
Qed.

Lemma emits_only_quiet P s s' : trace s' = trace s -> emits_only P s s'.
Proof. intros H. exists []. split; [rewrite app_nil_r; exact H | constructor]. Qed.

Lemma emits_only_one P ev s s' :
  P ev -> trace s' = trace s ++ [ev] -> emits_only P s s'.
Proof. intros HP H. exists [ev]. split; [exact H | constructor; [exact HP | constructor]]. Qed.

Lemma keeps_running_broadcast E frame addr :
  keeps (emits_only running_event) (broadcastDMX E frame addr).
Proof.
  intros s. apply (emits_only_one _ (EvBroadcast frame addr)); [exact I|].
  unfold broadcastDMX. destruct (send_outcome E (sends s)); reflexivity.
Qed.

Ltac keep_running :=
  repeat match goal with
    | |- keeps _ (mbind _ _) => apply keeps_bind; [apply emits_only_trans | | intros ?]
    | |- keeps _ (get _) => apply keeps_get; apply emits_only_refl
    | |- keeps _ (mret _) => apply keeps_ret; apply emits_only_refl
    | |- keeps _ (raise _) => apply keeps_raise; apply emits_only_refl
    | |- keeps _ (broadcastDMX _ _ _) => apply keeps_running_broadcast
    | |- keeps _ (time _) => intros ?; apply emits_only_quiet; reflexivity
    | |- keeps _ (emit EvMonitorLoop) =>
        apply keeps_modify; intros ?;
        apply (emits_only_one _ EvMonitorLoop); [exact I | reflexivity]
    | |- keeps _ (sleep ?d) =>
        apply keeps_sleep; intros ?;
        apply (emits_only_one _ (EvSleep d)); [exact I | reflexivity]
    | |- keeps _ (modify _) =>
        apply keeps_modify; intros ?; apply emits_only_quiet; reflexivity
    end.

Lemma keeps_running_loop_body c j : keeps (emits_only running_event) (loop_body c j).
Proof.
  intros s. rewrite loop_body_eq.
  destruct (new_level c j) as [v|]; [|apply emits_only_refl].
  destruct (dmxframe s !! j) as [stored|]; [|apply emits_only_refl].
  destruct (decide (stored = v)); [apply emits_only_refl|].
  apply (emits_only_one _ (EvChannel j v)); [exact I | reflexivity].
Qed.

Lemma keeps_running_loop_once E c : keeps (emits_only running_event) (_loop_once E c).
Proof.
  unfold _loop_once, scan_channels. keep_running.
  - apply keeps_for_each; [apply emits_only_refl | apply emits_only_trans |].
    intros j. apply keeps_running_loop_body.
  - unfold maybe_send, send_and_stamp.
    apply keeps_bind; [apply emits_only_trans | keep_running | intros dirty].
    destruct dirty; keep_running. destruct (Qlt_le_dec _ _); keep_running.
Qed.

Lemma keeps_running_loop_forever E cycles :
  keeps (emits_only running_event) (_loop_forever E cycles).
Proof.
  induction cycles as [|c cycles IH]; simpl; keep_running.
  - apply keeps_running_loop_once.
  - destruct (signal c); keep_running.
  - exact IH.
Qed.

Lemma running_events_have_no_close l : Forall running_event l -> ~ In EvClose l.
Proof.
  intros H Hin. rewrite Forall_forall in H.
  apply (H EvClose). apply list_elem_of_In. exact Hin.
Qed.

Lemma start_emits_running E : Forall running_event (trace (state_of ((_setup;; _start E) initial))).
Proof.
  rewrite start_eq. destruct (input_items E); [constructor|].
  destruct (send_outcome E 0); cbv zeta; simpl; repeat constructor.
Qed.

(** X11.  The endpoint is closed exactly by the runs that exit through
    the handler: [artnet.close()] is among the calls of a run if and only if
    the run reached [sys.exit()].  A run that is still looping, or that an
    exception ended at start, in the loop (unhandled) or inside the
    shutdown, has not closed it. *)
Theorem endpoint_closed_iff_exited (E : env) (cycles : list cycle) :
  In EvClose (trace (snd (main E cycles))) <-> fst (main E cycles) = Exited.
Proof.
  pose proof (start_emits_running E) as H0. unfold main.
  destruct ((_setup;; _start E) initial) as [[] s0|e s0]; simpl in H0.
  2: { simpl. split; [|discriminate].
       intros Hin. exfalso. exact (running_events_have_no_close _ H0 Hin). }
  destruct (keeps_running_loop_forever E cycles s0) as (later & Hlater & Hrun).
  assert (H1 : ~ In EvClose (trace (state_of (_loop_forever E cycles s0)))).
  { rewrite Hlater. apply running_events_have_no_close. apply Forall_app. auto. }
  destruct (_loop_forever E cycles s0) as [[] s1|e s1]; simpl in H1 |- *.
  { split; [contradiction | discriminate]. }
  destruct (handled e); simpl; [|split; [contradiction | discriminate]].
  destruct (stop_outcomes E s1) as [(s2 & Hstop & Htr)|(k & e2 & s2 & Hk & Hstop & Htr)];
    rewrite Hstop; simpl.
  - split; [reflexivity|]. intros _. rewrite Htr. apply in_or_app. right.
    unfold shutdown_events. cbv zeta. simpl. tauto.
  - split; [|discriminate]. intros Hin. exfalso. rewrite Htr in Hin.
    apply in_app_or in Hin as [Hin|Hin]; [exact (H1 Hin)|].
    exact (shutdown_prefix_has_no_close _ k Hk Hin).
Qed.

(** ** The first cycle *)

Lemma main_grows_from_loop E cycles s0 s :
  (_setup;; _start E) initial = Ok tt s0 ->
  grows s (state_of (_loop_forever E cycles s0)) ->
  grows s (snd (main E cycles)).
Proof.
  intros Hstart G. unfold main. rewrite Hstart.
  destruct (_loop_forever E cycles s0) as [[] s1|e s1]; simpl in *; [exact G|].
  destruct (handled e); simpl; [|exact G].
  pose proof (keeps_grows_stop E s1) as G2.
  destruct (_stop E s1) as [[] s2|e2 s2]; simpl in *; eapply grows_trans; eauto.
Qed.

Lemma first_cycle_grows E c later s :
  grows (state_of (_loop_once E c (log EvMonitorLoop s)))
        (state_of (_loop_forever E (c :: later) s)).
Proof.
  rewrite loop_forever_cons.
  destruct (_loop_once E c (log EvMonitorLoop s)) as [[] s1|e s1]; simpl.
  2: apply grows_refl.
  destruct (Qlt_le_dec (delay c) 0); simpl.
  { exists [EvSleep (delay c)]. reflexivity. }
  destruct (signal c); simpl.
  - exists [EvSleep (delay c)]. reflexivity.
  - eapply grows_trans; [|apply keeps_grows_loop_forever].
    exists [EvSleep (delay c)]. reflexivity.
Qed.

(** X12.  The first cycle after a successful start sends as soon as any
    channel has a level other than 0, whatever the clock says: the frame
    starts as all zeros, so that level is a change, and the run's calls
    contain a broadcast to the configured universe whose frame carries the
    level at that channel's index. *)
Theorem first_nonzero_level_is_sent
    (E : env) (c : cycle) (later : list cycle) (i : nat) (level : Z) :
  input_items E <> [] -> send_outcome E 0 = None ->
  (i < 512)%nat -> new_level c i = Some level -> level <> 0 ->
  exists frame,
    In (EvBroadcast frame [0; 0; universe E]) (trace (snd (main E (c :: later))))
    /\ frame !! i = Some level.
Proof.
  intros Hitems Hsend Hi Hnew Hnz.
  pose proof (start_eq E) as Hstart.
  destruct (input_items E) as [|item items]; [congruence|].
  rewrite Hsend in Hstart. cbv zeta in Hstart.
  match type of Hstart with _ = Ok tt ?st => remember st as s0 eqn:Hs0 end.
  assert (Hf0 : dmxframe s0 = replicate 512 0) by (subst s0; reflexivity).
  assert (Hn0 : dmxsize s0 = 512%nat) by (subst s0; reflexivity).
  assert (Ha0 : address s0 = [0; 0; universe E]) by (subst s0; reflexivity).
  clear Hs0.
  destruct (scan_channels_post c (log EvMonitorLoop s0)) as (s1 & Hscan & P).
  { simpl. rewrite Hf0, Hn0. apply length_replicate. }
  destruct P. simpl in *. rewrite Hn0 in *. rewrite Hf0 in *.
  assert (Hold : replicate 512 0 !! i = Some 0).
  { apply lookup_replicate_2. exact Hi. }
  assert (Hin : In i (seq 0 512)) by (apply in_seq; lia).
  assert (Hdirty : update s1 = true).
  { rewrite sp_update0. apply existsb_exists. exists i.
    split; [exact Hin|]. apply changedb_spec. exists level. split; [exact Hnew|].
    rewrite Hold. congruence. }
  assert (Hframe : dmxframe s1 !! i = Some level).
  { rewrite sp_frame0.
    rewrite bool_decide_eq_true_2 by (apply elem_of_seq; lia).
    unfold scanned. rewrite Hnew. reflexivity. }
  assert (Haddr : address s1 = [0; 0; universe E]) by congruence.
  assert (Hsent : trace (state_of (_loop_once E c (log EvMonitorLoop s0)))
                  = trace s1 ++ [EvBroadcast (dmxframe s1) [0; 0; universe E]]).
  { rewrite (loop_once_eq E c _ s1 Hscan), maybe_send_eq, Hdirty, send_and_stamp_eq.
    cbv zeta. rewrite Haddr. destruct (send_outcome E (sends s1)); reflexivity. }
  destruct (main_grows_from_loop E (c :: later) s0 _ Hstart (first_cycle_grows E c later s0))
    as (rest & Hrest).
  exists (dmxframe s1). split; [|exact Hframe].
  rewrite Hrest, Hsent. apply in_or_app. left. apply in_or_app. right. left. reflexivity.
Qed.

Lemma first_nonzero_level_is_sent_witness :
  input_items lab <> [] /\ send_outcome lab 0 = None
  /\ new_level (only_first 1) 0 = Some 255
  /\ exists frame,
       In (EvBroadcast frame [0; 0; 1]) (trace (snd (main lab [only_first 1])))
       /\ frame !! 0%nat = Some 255.
Proof.
  assert (Hitems : input_items lab <> []) by discriminate.
  assert (Hnew : new_level (only_first 1) 0 = Some 255) by (vm_compute; reflexivity).
  split; [exact Hitems|]. split; [reflexivity|]. split; [exact Hnew|].
  apply (first_nonzero_level_is_sent lab (only_first 1) [] 0 255 Hitems eq_refl);
    [lia | exact Hnew | discriminate].
Defined.
